(** * dotclaude: configuration validation, repository setup and hook-log redaction

    A shallow embedding of [validate-config.py] and [setup.py], together with a
    model of the redaction step of the hook logger, and the properties claimed
    of them.

    Conventions.
    - A Python [str] is a Rocq [string] holding its UTF-8 encoding.
    - Values of the types [json.load] can produce ([None], [bool], [int],
      [float], [str], [list], [dict]) form the inductive type [value]; a [dict]
      is the list of its items in insertion order.
    - Floats are kept abstract ([pyfloat]); so are [repr], the iteration order of
      a [set] of strings and the interpreter's recursion limit: the programs do
      not depend on how the interpreter fixes them.
    - Code that may raise returns a [result]; code that prints or touches the
      file system runs in the monad [M] over a [world]. *)

From Stdlib Require Import ZArith String Ascii List Bool Lia DecimalString.
From stdpp Require Import base option list strings gmap.

Local Open Scope string_scope.
Local Open Scope list_scope.

(** ** Strings *)

(** [str.lower()] on the ASCII range.  A character outside ASCII is encoded by
    bytes above 127, which are left alone.  [validate_mcp_config] only looks
    for the words "get-this-from" and "your_" in the lowered text, and Python
    lowers no character outside ASCII to text in which one of them could
    start or go on (U+212A gives "k", U+0130 gives "i" and U+0307), so the
    tests come out the same. *)
Definition lower_char (c : ascii) : ascii :=
  let n := N_of_ascii c in
  if ((65 <=? n) && (n <=? 90))%N then ascii_of_N (n + 32) else c.

Fixpoint str_lower (s : string) : string :=
  match s with
  | EmptyString => EmptyString
  | String c s' => String (lower_char c) (str_lower s')
  end.

(** [needle in haystack] for two strings. *)
Fixpoint str_contains (needle haystack : string) : bool :=
  String.prefix needle haystack ||
  match haystack with
  | EmptyString => false
  | String _ rest => str_contains needle rest
  end.

(** [sep.join(parts)]. *)
Fixpoint str_join (sep : string) (parts : list string) : string :=
  match parts with
  | [] => EmptyString
  | [p] => p
  | p :: rest => p +:+ sep +:+ str_join sep rest
  end.

(** Decimal rendering of a natural number, as [%d] does. *)
Definition str_of_nat (n : nat) : string :=
  NilEmpty.string_of_uint (Nat.to_uint n).

(** The double quote, the character with code 34. *)
Definition DQUOTE : ascii := ascii_of_nat 34.

Definition str_of_char (c : ascii) : string := String c EmptyString.

(** [s[n:]]. *)
Fixpoint str_drop (n : nat) (s : string) : string :=
  match n, s with
  | O, _ => s
  | S n', String _ rest => str_drop n' rest
  | S _, EmptyString => EmptyString
  end.

(** A byte that continues a UTF-8 sequence: it starts no character. *)
Definition is_continuation (c : ascii) : bool :=
  let n := N_of_ascii c in ((128 <=? n) && (n <? 192))%N.

(** The index after the character [c] read at index [pos], counted in
    characters (code points), as Python counts. *)
Definition advance (c : ascii) (pos : nat) : nat :=
  if is_continuation c then pos else S pos.

(** [chr(n)], in UTF-8. *)
Definition chr (n : N) : string :=
  let byte (k : N) := ascii_of_N k in
  let cont (k : N) := byte (128 + N.land k 63)%N in
  if (n <? 128)%N then str_of_char (byte n)
  else if (n <? 2048)%N then
    String (byte (192 + N.shiftr n 6)%N) (str_of_char (cont n))
  else if (n <? 65536)%N then
    String (byte (224 + N.shiftr n 12)%N)
      (String (cont (N.shiftr n 6)) (str_of_char (cont n)))
  else
    String (byte (240 + N.shiftr n 18)%N)
      (String (cont (N.shiftr n 12))
         (String (cont (N.shiftr n 6)) (str_of_char (cont n)))).

Definition is_digit (c : ascii) : bool :=
  let n := N_of_ascii c in ((48 <=? n) && (n <=? 57))%N.

Definition digit_val (c : ascii) : Z := (Z.of_N (N_of_ascii c) - 48)%Z.

(** The longest prefix of digits, and what follows it. *)
Fixpoint span_digits (s : string) : string * string :=
  match s with
  | String c rest =>
      if is_digit c then
        let (ds, tl) := span_digits rest in (String c ds, tl)
      else (EmptyString, s)
  | EmptyString => (EmptyString, EmptyString)
  end.

(** [int(digits)] for a string of decimal digits. *)
Definition int_of_digits (digits : string) : Z :=
  fold_left (fun acc c => 10 * acc + digit_val c)%Z (list_ascii_of_string digits) 0%Z.

Definition hex_val (c : ascii) : option N :=
  let n := N_of_ascii c in
  if ((48 <=? n) && (n <=? 57))%N then Some (n - 48)%N
  else if ((65 <=? n) && (n <=? 70))%N then Some (n - 55)%N
  else if ((97 <=? n) && (n <=? 102))%N then Some (n - 87)%N
  else None.

(** [int(h1 h2 h3 h4, 16)] when the four characters are hexadecimal digits. *)
Definition hex4 (h1 h2 h3 h4 : ascii) : option N :=
  match hex_val h1, hex_val h2, hex_val h3, hex_val h4 with
  | Some a, Some b, Some c, Some d => Some (((a * 16 + b) * 16 + c) * 16 + d)%N
  | _, _, _, _ => None
  end.

(** The components of a relative path written with slashes. *)
Fixpoint split_path (s cur : string) : list string :=
  match s with
  | EmptyString => if String.eqb cur EmptyString then [] else [cur]
  | String c rest =>
      if Ascii.eqb c "/" then
        if String.eqb cur EmptyString then split_path rest EmptyString
        else cur :: split_path rest EmptyString
      else split_path rest (cur +:+ str_of_char c)
  end.

(** ** Exceptions *)

Inductive exn : Type :=
| JSONDecodeError (msg doc : string) (pos : nat)
| StopIteration (value : nat)
| UnicodeDecodeError
| RecursionError
| FileNotFoundError
| FileExistsError
| IsADirectoryError
| NotADirectoryError
| PermissionError
| TypeError (msg : string)
| AttributeError (msg : string)
| KeyError (key : string)
| SystemExit (code : Z).

(** [isinstance(e, Exception)]: [SystemExit] derives from [BaseException] only. *)
Definition is_Exception (e : exn) : bool :=
  match e with
  | SystemExit _ => false
  | _ => true
  end.

(** [isinstance(e, OSError)]. *)
Definition is_OSError (e : exn) : bool :=
  match e with
  | FileNotFoundError | FileExistsError | IsADirectoryError
  | NotADirectoryError | PermissionError => true
  | _ => false
  end.

Inductive result (A : Type) : Type :=
| Ok (a : A)
| Raise (e : exn).
Arguments Ok {A} a.
Arguments Raise {A} e.

Definition result_bind {A B} (r : result A) (f : A -> result B) : result B :=
  match r with
  | Ok a => f a
  | Raise e => Raise e
  end.

(** A computation that, if it raises, raises an instance of [Exception]. *)
Definition raises_Exception {A : Type} (r : result A) : Prop :=
  match r with
  | Ok _ => True
  | Raise e => is_Exception e = true
  end.

(** ** The file system and the standard output *)

(** A path below the repository root, as the list of its components; the root
    itself is the empty list and is a directory. *)
Abbreviation path := (list string).

(** What reading a file as UTF-8 text gives. *)
Inductive content : Type :=
| Text (s : string)
| Undecodable
| Unreadable.

Inductive node : Type :=
| Dir
| File (c : content).

Record world : Type := World {
  fs : gmap path node;
  stdout : list string
}.

Definition node_at (f : gmap path node) (p : path) : option node :=
  match p with
  | [] => Some Dir
  | _ => f !! p
  end.

(** [os.stat]: every component before the last must be a directory. *)
Fixpoint stat_walk (f : gmap path node) (cur rest : path) : result node :=
  match rest with
  | [] =>
      match node_at f cur with
      | Some n => Ok n
      | None => Raise FileNotFoundError
      end
  | c :: rest' =>
      match node_at f cur with
      | Some Dir => stat_walk f (cur ++ [c]) rest'
      | Some (File _) => Raise NotADirectoryError
      | None => Raise FileNotFoundError
      end
  end.

Definition stat (f : gmap path node) (p : path) : result node := stat_walk f [] p.

(** [Path.exists()] and [Path.is_dir()]: a missing entry and a file in the
    place of a directory are not errors. *)
Definition exists_in (f : gmap path node) (p : path) : bool :=
  match stat f p with
  | Ok _ => true
  | Raise _ => false
  end.

Definition is_dir_in (f : gmap path node) (p : path) : bool :=
  match stat f p with
  | Ok Dir => true
  | _ => false
  end.

(** [base / rel]. *)
Definition joinpath (base : path) (rel : string) : path :=
  base ++ split_path rel EmptyString.

(** [Path(__file__).parent]. *)
Definition repo_root : path := [].

(** Programs that print and use the file system, and may raise. *)
Definition M (A : Type) : Type := world -> world * result A.

Definition ret {A : Type} (a : A) : M A := fun w => (w, Ok a).

Definition bind {A B : Type} (m : M A) (k : A -> M B) : M B :=
  fun w =>
    match m w with
    | (w', Ok a) => k a w'
    | (w', Raise e) => (w', Raise e)
    end.

Definition raise {A : Type} (e : exn) : M A := fun w => (w, Raise e).

Definition lift {A : Type} (r : result A) : M A := fun w => (w, r).

(** [try: body except ... as e: handler e]; a handler that does not catch
    [e] raises it again. *)
Definition try_except {A : Type} (body : M A) (handler : exn -> M A) : M A :=
  fun w =>
    match body w with
    | (w', Raise e) => handler e w'
    | (w', Ok a) => (w', Ok a)
    end.

Definition print (line : string) : M unit :=
  fun w => (World (fs w) (stdout w ++ [line]), Ok tt).

Declare Scope prog_scope.
Delimit Scope prog_scope with prog.
Bind Scope prog_scope with M.
Notation "'let*' x ':=' m 'in' k" := (bind m (fun x => k))
  (at level 10, x name, m at level 100, k at level 200) : prog_scope.
Notation "m ;; k" := (bind m (fun _ => k))
  (at level 100, k at level 200, right associativity) : prog_scope.
Local Open Scope prog_scope.

(** [for x in xs: body x]. *)
Fixpoint for_each {A : Type} (xs : list A) (body : A -> M unit) : M unit :=
  match xs with
  | [] => ret tt
  | x :: rest => body x ;; for_each rest body
  end.

Definition path_exists (p : path) : M bool := fun w => (w, Ok (exists_in (fs w) p)).

Definition path_is_dir (p : path) : M bool := fun w => (w, Ok (is_dir_in (fs w) p)).

(** [open(p, 'r', encoding='utf-8')] followed by [read()]. *)
Definition read_text (f : gmap path node) (p : path) : result string :=
  match stat f p with
  | Raise e => Raise e
  | Ok Dir => Raise IsADirectoryError
  | Ok (File Unreadable) => Raise PermissionError
  | Ok (File Undecodable) => Raise UnicodeDecodeError
  | Ok (File (Text s)) => Ok s
  end.

Definition open_read (p : path) : M string := fun w => (w, read_text (fs w) p).

(** The status with which the process ends: the code given to [sys.exit], or 1
    after a traceback. *)
Definition exit_status {A : Type} (r : result A) : Z :=
  match r with
  | Ok _ => 0%Z
  | Raise (SystemExit code) => code
  | Raise _ => 1%Z
  end.

(** [os.mkdir(p)]. *)
Definition os_mkdir (p : path) : M unit :=
  fun w =>
    match p with
    | [] => (w, Raise FileExistsError)
    | _ =>
        match stat (fs w) (removelast p) with
        | Raise e => (w, Raise e)
        | Ok (File _) => (w, Raise NotADirectoryError)
        | Ok Dir =>
            match fs w !! p with
            | Some _ => (w, Raise FileExistsError)
            | None => (World (<[p := Dir]> (fs w)) (stdout w), Ok tt)
            end
        end
    end.

(** The clause [except OSError] of [Path.mkdir]:
    [if not exist_ok or not self.is_dir(): raise]. *)
Definition mkdir_OSError (p : path) (exist_ok : bool) (e : exn) : M unit :=
  let* d := path_is_dir p in
  if negb exist_ok || negb d then raise e else ret tt.

(** [Path.mkdir(parents=False, exist_ok=exist_ok)]. *)
Definition Path_mkdir_noparents (p : path) (exist_ok : bool) : M unit :=
  try_except (os_mkdir p)
    (fun e =>
       match e with
       | FileNotFoundError => raise e
       | _ => if is_OSError e then mkdir_OSError p exist_ok e else raise e
       end).

(** [Path.mkdir(parents=parents, exist_ok=exist_ok)] of [pathlib], on the
    components in reverse, whose tail is the parent. *)
Fixpoint mkdir_rev (rp : path) (parents exist_ok : bool) {struct rp} : M unit :=
  try_except (os_mkdir (rev rp))
    (fun e =>
       match e with
       | FileNotFoundError =>
           match rp with
           | [] => raise e
           | _ :: rparent =>
               if parents then
                 mkdir_rev rparent true true ;;
                 Path_mkdir_noparents (rev rp) exist_ok
               else raise e
           end
       | _ => if is_OSError e then mkdir_OSError (rev rp) exist_ok e else raise e
       end).

Definition Path_mkdir (p : path) (parents exist_ok : bool) : M unit :=
  mkdir_rev (rev p) parents exist_ok.

(** No entry of the file system on the way to [p], or at [p], is a file. *)
Definition no_file_on (f : gmap path node) (p : path) : Prop :=
  forall q r c, p = q ++ r -> f !! q <> Some (File c).

(** [f'] has every entry of [f], and besides them only directories. *)
Definition only_dirs_added (f f' : gmap path node) : Prop :=
  f ⊆ f' /\ forall q n, f' !! q = Some n -> f !! q = Some n \/ n = Dir.

Section Python.

(** The interpreter's floats, with [float(literal)]. *)
Context (pyfloat : Type) (parse_float : string -> pyfloat).

(** ** Values *)

#[warnings="-register-all"]
Inductive value : Type :=
| PyNone
| PyBool (b : bool)
| PyInt (n : Z)
| PyFloat (x : pyfloat)
| PyStr (s : string)
| PyList (items : list value)
| PyDict (entries : list (string * value)).

(** [key in d] and [d.get(key)] on the items of a dict. *)
Fixpoint dict_get (key : string) (d : list (string * value)) : option value :=
  match d with
  | [] => None
  | (k, v) :: rest => if String.eqb k key then Some v else dict_get key rest
  end.

Definition dict_has (key : string) (d : list (string * value)) : bool :=
  match dict_get key d with
  | Some _ => true
  | None => false
  end.

(** [d[key] = v]: an existing key keeps its place, a new one goes last. *)
Fixpoint dict_set (key : string) (v : value) (d : list (string * value))
  : list (string * value) :=
  match d with
  | [] => [(key, v)]
  | (k, x) :: rest =>
      if String.eqb k key then (k, v) :: rest else (k, x) :: dict_set key v rest
  end.

(** [dict(pairs)]. *)
Definition dict_of_pairs (pairs : list (string * value)) : list (string * value) :=
  fold_left (fun d kv => dict_set (fst kv) (snd kv) d) pairs [].

(** [v == s] for a string [s]. *)
Definition eq_str (v : value) (s : string) : bool :=
  match v with
  | PyStr t => String.eqb t s
  | _ => false
  end.

(** ** [json.loads]

    The decoder follows CPython's [json/decoder.py] and [json/scanner.py]
    (the reference implementation of the C accelerator), with the default
    hooks and [strict=True].  A position is an index into the document,
    counted in characters; the functions carry the text that remains to be
    read together with the index of its first character. *)

(** [repr(v)], and the depth of nested containers the decoder accepts. *)
Context (repr : value -> string) (recursion_limit : nat).

Section Decoder.

(** The document being decoded, reported by the errors. *)
Variable doc : string.

Definition ws_char (c : ascii) : bool :=
  let n := N_of_ascii c in ((n =? 32) || (n =? 9) || (n =? 10) || (n =? 13))%N.

(** [WHITESPACE.match(s, end).end()]. *)
Fixpoint skip_ws (s : string) (pos : nat) : string * nat :=
  match s with
  | String c rest => if ws_char c then skip_ws rest (S pos) else (s, pos)
  | EmptyString => (s, pos)
  end.

(** The table [BACKSLASH] of one-letter escapes. *)
Definition unescape (esc : ascii) : option ascii :=
  let n := N_of_ascii esc in
  if (n =? 34)%N then Some DQUOTE
  else if (n =? 92)%N then Some "\"%char
  else if (n =? 47)%N then Some "/"%char
  else if (n =? 98)%N then Some (ascii_of_nat 8)
  else if (n =? 102)%N then Some (ascii_of_nat 12)
  else if (n =? 110)%N then Some (ascii_of_nat 10)
  else if (n =? 114)%N then Some (ascii_of_nat 13)
  else if (n =? 116)%N then Some (ascii_of_nat 9)
  else None.

Definition is_high_surrogate (uni : N) : bool := ((55296 <=? uni) && (uni <=? 56319))%N.
Definition is_low_surrogate (uni : N) : bool := ((56320 <=? uni) && (uni <=? 57343))%N.

Definition join_surrogates (uni uni2 : N) : N :=
  (65536 + N.lor (N.shiftl (uni - 55296) 10) (uni2 - 56320))%N.

Definition unterminated (begin : nat) : exn :=
  JSONDecodeError "Unterminated string starting at" doc begin.

Definition invalid_uXXXX (pos : nat) : exn :=
  JSONDecodeError "Invalid \uXXXX escape" doc pos.

(** The loop of [py_scanstring]: [s] is the text after the opening quote or
    after the last chunk, [chunks] what has been decoded so far, [begin] the
    index of the opening quote. *)
Fixpoint scanstring_loop (begin : nat) (s : string) (pos : nat) (chunks : string)
  : result (string * string * nat) :=
  match s with
  | EmptyString => Raise (unterminated begin)
  | String c rest =>
      if Ascii.eqb c DQUOTE then Ok (chunks, rest, S pos)
      else if Ascii.eqb c "\" then
        match rest with
        | EmptyString => Raise (unterminated begin)
        | String esc rest1 =>
            if Ascii.eqb esc "u" then
              match rest1 with
              | String h1 (String h2 (String h3 (String h4 rest2))) =>
                  match hex4 h1 h2 h3 h4 with
                  | None => Raise (invalid_uXXXX (S pos))
                  | Some uni =>
                      let single :=
                        scanstring_loop begin rest2 (pos + 6) (chunks +:+ chr uni) in
                      if is_high_surrogate uni then
                        match rest2 with
                        | String b (String u rest3) =>
                            if Ascii.eqb b "\" && Ascii.eqb u "u" then
                              match rest3 with
                              | String l1 (String l2 (String l3 (String l4 rest4))) =>
                                  match hex4 l1 l2 l3 l4 with
                                  | None => Raise (invalid_uXXXX (pos + 7))
                                  | Some uni2 =>
                                      if is_low_surrogate uni2 then
                                        scanstring_loop begin rest4 (pos + 12)
                                          (chunks +:+ chr (join_surrogates uni uni2))
                                      else single
                                  end
                              | _ => Raise (invalid_uXXXX (pos + 7))
                              end
                            else single
                        | _ => single
                        end
                      else single
                  end
              | _ => Raise (invalid_uXXXX (S pos))
              end
            else
              match unescape esc with
              | None =>
                  Raise (JSONDecodeError
                           ("Invalid \escape: " +:+ repr (PyStr (str_of_char esc)))
                           doc (S pos))
              | Some ch =>
                  scanstring_loop begin rest1 (pos + 2) (chunks +:+ str_of_char ch)
              end
        end
      else if (N_of_ascii c <? 32)%N then
        Raise (JSONDecodeError
                 ("Invalid control character " +:+ repr (PyStr (str_of_char c)) +:+ " at")
                 doc (S pos))
      else scanstring_loop begin rest (advance c pos) (chunks +:+ str_of_char c)
  end.

(** [scanstring(s, end)], [end] being the index after the opening quote. *)
Definition scanstring (s : string) (pos : nat) : result (string * string * nat) :=
  scanstring_loop (pos - 1) s pos EmptyString.

(** [NUMBER_RE.match]: the integer part, the fraction and the exponent matched
    at the start of [s] (the last two empty when absent), and what follows. *)
Definition match_number (s : string) : option (string * string * string * string) :=
  let (sign, s1) :=
    match s with
    | String c rest => if Ascii.eqb c "-" then ("-", rest) else (EmptyString, s)
    | EmptyString => (EmptyString, s)
    end in
  match s1 with
  | String c rest =>
      if is_digit c then
        let (digits, s2) :=
          if Ascii.eqb c "0" then ("0", rest) else span_digits s1 in
        let (frac, s3) :=
          match s2 with
          | String d r =>
              let (fd, r') := span_digits r in
              if Ascii.eqb d "." && negb (String.eqb fd EmptyString)
              then ("." +:+ fd, r') else (EmptyString, s2)
          | EmptyString => (EmptyString, s2)
          end in
        let (exp, s4) :=
          match s3 with
          | String e r =>
              let (sg, r1) :=
                match r with
                | String g r' =>
                    if Ascii.eqb g "+" || Ascii.eqb g "-"
                    then (str_of_char g, r') else (EmptyString, r)
                | EmptyString => (EmptyString, r)
                end in
              let (ed, r2) := span_digits r1 in
              if (Ascii.eqb e "e" || Ascii.eqb e "E") && negb (String.eqb ed EmptyString)
              then (String e (sg +:+ ed), r2) else (EmptyString, s3)
          | EmptyString => (EmptyString, s3)
          end in
        Some (sign +:+ digits, frac, exp, s4)
      else None
  | EmptyString => None
  end.

(** [int(integer)] for the integer part of a number. *)
Definition parse_int (integer : string) : Z :=
  match integer with
  | String c digits =>
      if Ascii.eqb c "-" then (- int_of_digits digits)%Z else int_of_digits integer
  | EmptyString => 0%Z
  end.

(** [except StopIteration as err: raise JSONDecodeError("Expecting value", s, err.value)]. *)
Definition expecting_value {A : Type} (r : result A) : result A :=
  match r with
  | Raise (StopIteration idx) => Raise (JSONDecodeError "Expecting value" doc idx)
  | _ => r
  end.

Definition expecting_name (pos : nat) : exn :=
  JSONDecodeError "Expecting property name enclosed in double quotes" doc pos.

Definition expecting_comma (pos : nat) : exn :=
  JSONDecodeError "Expecting ',' delimiter" doc pos.

(** [JSONArray] up to its loop, which [scan_once] hands over. *)
Definition JSONArray
    (loop : string -> nat -> list value -> result (value * string * nat))
    (s : string) (pos : nat) : result (value * string * nat) :=
  let (s1, end1) := skip_ws s pos in
  match s1 with
  | String c rest =>
      if Ascii.eqb c "]" then Ok (PyList [], rest, S end1) else loop s1 end1 []
  | EmptyString => loop s1 end1 []
  end.

(** [JSONObject] up to its loop; the loop starts after the quote that opens
    a key. *)
Definition JSONObject
    (loop : string -> nat -> list (string * value) -> result (value * string * nat))
    (s : string) (pos : nat) : result (value * string * nat) :=
  let (s1, end1) := skip_ws s pos in
  match s1 with
  | String c rest =>
      if Ascii.eqb c DQUOTE then loop rest (S end1) []
      else if Ascii.eqb c "}" then Ok (PyDict [], rest, S end1)
      else Raise (expecting_name end1)
  | EmptyString => Raise (expecting_name end1)
  end.

(** [scan_once] with the loops of [JSONArray] and [JSONObject].  [fuel] bounds
    the number of calls (see [decode]); [depth] is the number of containers
    that may still be entered. *)
Fixpoint scan_once (fuel depth : nat) (s : string) (pos : nat) {struct fuel}
  : result (value * string * nat) :=
  match fuel with
  | O => Raise RecursionError
  | S fuel' =>
      match s with
      | EmptyString => Raise (StopIteration pos)
      | String nextchar rest =>
          if Ascii.eqb nextchar DQUOTE then
            match scanstring rest (S pos) with
            | Ok (str, s', pos') => Ok (PyStr str, s', pos')
            | Raise e => Raise e
            end
          else if Ascii.eqb nextchar "{" then
            match depth with
            | O => Raise RecursionError
            | S depth' => JSONObject (object_loop fuel' depth') rest (S pos)
            end
          else if Ascii.eqb nextchar "[" then
            match depth with
            | O => Raise RecursionError
            | S depth' => JSONArray (array_loop fuel' depth') rest (S pos)
            end
          else if String.prefix "null" s then Ok (PyNone, str_drop 4 s, pos + 4)
          else if String.prefix "true" s then Ok (PyBool true, str_drop 4 s, pos + 4)
          else if String.prefix "false" s then Ok (PyBool false, str_drop 5 s, pos + 5)
          else
            match match_number s with
            | Some (integer, frac, exp, s') =>
                let text := integer +:+ frac +:+ exp in
                let res :=
                  if String.eqb frac EmptyString && String.eqb exp EmptyString
                  then PyInt (parse_int integer) else PyFloat (parse_float text) in
                Ok (res, s', pos + String.length text)
            | None =>
                if String.prefix "NaN" s then
                  Ok (PyFloat (parse_float "NaN"), str_drop 3 s, pos + 3)
                else if String.prefix "Infinity" s then
                  Ok (PyFloat (parse_float "Infinity"), str_drop 8 s, pos + 8)
                else if String.prefix "-Infinity" s then
                  Ok (PyFloat (parse_float "-Infinity"), str_drop 9 s, pos + 9)
                else Raise (StopIteration pos)
            end
      end
  end

with array_loop (fuel depth : nat) (s : string) (pos : nat) (values : list value)
    {struct fuel} : result (value * string * nat) :=
  match fuel with
  | O => Raise RecursionError
  | S fuel' =>
      match expecting_value (scan_once fuel' depth s pos) with
      | Raise e => Raise e
      | Ok (v, s1, end1) =>
          let values := values ++ [v] in
          let (s2, end2) := skip_ws s1 end1 in
          match s2 with
          | String c s3 =>
              if Ascii.eqb c "]" then Ok (PyList values, s3, S end2)
              else if Ascii.eqb c "," then
                let (s4, end4) := skip_ws s3 (S end2) in
                array_loop fuel' depth s4 end4 values
              else Raise (expecting_comma end2)
          | EmptyString => Raise (expecting_comma end2)
          end
      end
  end

with object_loop (fuel depth : nat) (s : string) (pos : nat)
    (pairs : list (string * value)) {struct fuel} : result (value * string * nat) :=
  match fuel with
  | O => Raise RecursionError
  | S fuel' =>
      match scanstring s pos with
      | Raise e => Raise e
      | Ok (key, s1, end1) =>
          let (s2, end2) := skip_ws s1 end1 in
          match s2 with
          | String colon s3 =>
              if Ascii.eqb colon ":" then
                let (s4, end4) := skip_ws s3 (S end2) in
                match expecting_value (scan_once fuel' depth s4 end4) with
                | Raise e => Raise e
                | Ok (v, s5, end5) =>
                    let pairs := pairs ++ [(key, v)] in
                    let (s6, end6) := skip_ws s5 end5 in
                    match s6 with
                    | String c s7 =>
                        if Ascii.eqb c "}" then
                          Ok (PyDict (dict_of_pairs pairs), s7, S end6)
                        else if Ascii.eqb c "," then
                          let (s8, end8) := skip_ws s7 (S end6) in
                          match s8 with
                          | String q s9 =>
                              if Ascii.eqb q DQUOTE
                              then object_loop fuel' depth s9 (S end8) pairs
                              else Raise (expecting_name end8)
                          | EmptyString => Raise (expecting_name end8)
                          end
                        else Raise (expecting_comma end6)
                    | EmptyString => Raise (expecting_comma end6)
                    end
                end
              else Raise (JSONDecodeError "Expecting ':' delimiter" doc end2)
          | EmptyString => Raise (JSONDecodeError "Expecting ':' delimiter" doc end2)
          end
      end
  end.

(** [JSONDecoder.decode].  No call of [scan_once] or of a loop reads less than
    one character before the next call, so the fuel given here is never used
    up ([decode_fuel] below): [RecursionError] comes from [recursion_limit]
    only. *)
Definition decode : result value :=
  let (s0, idx) := skip_ws doc 0 in
  match expecting_value (scan_once (2 * String.length doc + 2) recursion_limit s0 idx) with
  | Raise e => Raise e
  | Ok (obj, s1, end1) =>
      let (s2, end2) := skip_ws s1 end1 in
      match s2 with
      | EmptyString => Ok obj
      | String _ _ => Raise (JSONDecodeError "Extra data" doc end2)
      end
  end.

End Decoder.

(** The byte order mark U+FEFF. *)
Definition BOM : string := chr 65279.

(** [json.loads(s)] for a [str]. *)
Definition json_loads (s : string) : result value :=
  if String.prefix BOM s
  then Raise (JSONDecodeError "Unexpected UTF-8 BOM (decode using utf-8-sig)" s 0)
  else decode s.

(** The line and the column of the character at index [pos]: [lineno] and
    [colno] of [JSONDecodeError]. *)
Fixpoint line_col (doc : string) (pos lineno colno : nat) : nat * nat :=
  match doc with
  | EmptyString => (lineno, colno)
  | String c rest =>
      match pos with
      | O => (lineno, colno)
      | S pos' =>
          if is_continuation c then line_col rest pos lineno colno
          else if Ascii.eqb c (ascii_of_nat 10) then line_col rest pos' (S lineno) 1
          else line_col rest pos' lineno (S colno)
      end
  end.

(** [str(e)].  The interpreter words the errors of the operating system, of the
    codec and of the recursion limit; [exc_message] stands for its wording. *)
Context (exc_message : exn -> string).

Definition exn_str (e : exn) : string :=
  match e with
  | JSONDecodeError msg doc pos =>
      let (lineno, colno) := line_col doc pos 1 1 in
      msg +:+ ": line " +:+ str_of_nat lineno +:+ " column " +:+ str_of_nat colno
          +:+ " (char " +:+ str_of_nat pos +:+ ")"
  | TypeError msg => msg
  | AttributeError msg => msg
  | _ => exc_message e
  end.

(** ** Operations of the interpreter on values *)

(** [bool(x)] for a float, and the order in which a [set] holding the given
    strings is iterated. *)
Context (float_bool : pyfloat -> bool) (set_iter : list string -> list string).

(** [type(v).__name__]. *)
Definition type_name (v : value) : string :=
  match v with
  | PyNone => "NoneType"
  | PyBool _ => "bool"
  | PyInt _ => "int"
  | PyFloat _ => "float"
  | PyStr _ => "str"
  | PyList _ => "list"
  | PyDict _ => "dict"
  end.

(** [str(v)], what an f-string puts for [{v}]. *)
Definition py_str (v : value) : string :=
  match v with
  | PyStr s => s
  | _ => repr v
  end.

(** [bool(v)], the test of [if v:]. *)
Definition truthy (v : value) : bool :=
  match v with
  | PyNone => false
  | PyBool b => b
  | PyInt n => negb (n =? 0)%Z
  | PyFloat x => float_bool x
  | PyStr s => negb (String.eqb s EmptyString)
  | PyList items => match items with [] => false | _ => true end
  | PyDict entries => match entries with [] => false | _ => true end
  end.

Definition is_dict (v : value) : bool :=
  match v with
  | PyDict _ => true
  | _ => false
  end.

(** [key in container] for a string [key]. *)
Definition contains (container : value) (key : string) : result bool :=
  match container with
  | PyDict entries => Ok (dict_has key entries)
  | PyList items => Ok (existsb (fun v => eq_str v key) items)
  | PyStr s => Ok (str_contains key s)
  | _ =>
      Raise (TypeError ("argument of type '" +:+ type_name container
                          +:+ "' is not iterable"))
  end.

(** [container[key]] for a string [key]. *)
Definition getitem (container : value) (key : string) : result value :=
  match container with
  | PyDict entries =>
      match dict_get key entries with
      | Some v => Ok v
      | None => Raise (KeyError key)
      end
  | PyList _ => Raise (TypeError "list indices must be integers or slices, not str")
  | PyStr _ => Raise (TypeError "string indices must be integers, not 'str'")
  | _ => Raise (TypeError ("'" +:+ type_name container +:+ "' object is not subscriptable"))
  end.

(** A value that can be looked up in a [set]. *)
Definition hashable (v : value) : bool :=
  match v with
  | PyList _ | PyDict _ => false
  | _ => true
  end.

(** [v in elems] for a [set] of strings: [v] is hashed first. *)
Definition set_contains (elems : list string) (v : value) : result bool :=
  match v with
  | PyList _ | PyDict _ =>
      Raise (TypeError ("unhashable type: '" +:+ type_name v +:+ "'"))
  | _ => Ok (existsb (eq_str v) elems)
  end.

(** [v in elems] for a [list] of strings. *)
Definition list_contains (elems : list string) (v : value) : bool :=
  existsb (eq_str v) elems.

(** [d.get(key) == s] for the items [d] of a dict. *)
Definition get_eq (d : list (string * value)) (key s : string) : bool :=
  match dict_get key d with
  | Some v => eq_str v s
  | None => false
  end.

(** [d.get(key) in elems] for a list of strings. *)
Definition get_in (d : list (string * value)) (key : string) (elems : list string) : bool :=
  match dict_get key d with
  | Some v => list_contains elems v
  | None => false
  end.

(** [str(d.get(key))]. *)
Definition get_str (d : list (string * value)) (key : string) : string :=
  match dict_get key d with
  | Some v => py_str v
  | None => "None"
  end.

(** ** validate-config.py *)

(** [json.load] on the file opened at [p]: the body of the [try] of
    [validate_json_file]. *)
Definition load_json (f : gmap path node) (p : path) : result value :=
  result_bind (read_text f p) json_loads.

(** [validate_json_file(file_path)]. *)
Definition validate_json_file (file_path : path) : M value :=
  try_except
    (let* text := open_read file_path in
     let* data := lift (json_loads text) in
     ret (PyDict [("valid", PyBool true); ("data", data)]))
    (fun e =>
       match e with
       | JSONDecodeError _ _ _ =>
           ret (PyDict [("valid", PyBool false);
                        ("error", PyStr ("JSON parse error: " +:+ exn_str e))])
       | FileNotFoundError =>
           ret (PyDict [("valid", PyBool false); ("error", PyStr "File not found")])
       | _ =>
           if is_Exception e then
             ret (PyDict [("valid", PyBool false);
                          ("error", PyStr ("Unexpected error: " +:+ exn_str e))])
           else raise e
       end).

(** The test of a placeholder value:
    [isinstance(value, str) and ("get-this-from" in value.lower() or
    "your_" in value.lower())]. *)
Definition is_placeholder (v : value) : bool :=
  match v with
  | PyStr s =>
      str_contains "get-this-from" (str_lower s) || str_contains "your_" (str_lower s)
  | _ => false
  end.

(** The loop over [config["env"]] or [config["headers"]], when the key is
    there and holds a dict; [what] is "env var" or "header". *)
Definition placeholder_issues (server_name : string) (config : list (string * value))
    (field what : string) : list string :=
  match dict_get field config with
  | Some (PyDict items) =>
      flat_map (fun kv =>
                  match kv with
                  | (key, v) =>
                      if is_placeholder v then
                        ["Server '" +:+ server_name +:+ "' has placeholder value for "
                           +:+ what +:+ " '" +:+ key +:+ "': " +:+ py_str v]
                      else []
                  end) items
  | _ => []
  end.

Definition valid_types : list string := ["stdio"; "sse"; "http"].

(** One turn of the loop [for server_name, config in servers.items()]: the
    issues it appends. *)
Definition validate_server (server_name : string) (config : value) : list string :=
  match config with
  | PyDict cfg =>
      (* Check required fields *)
      (match dict_get "type" cfg with
       | None => ["Server '" +:+ server_name +:+ "' missing 'type' field"]
       | Some ty =>
           if negb (list_contains valid_types ty) then
             ["Server '" +:+ server_name +:+ "' has invalid type '" +:+ py_str ty
                +:+ "'. Must be one of: " +:+ repr (PyList (map PyStr valid_types))]
           else []
       end)
      (* Type-specific validation *)
      ++ (if get_eq cfg "type" "stdio" then
            if negb (dict_has "command" cfg) then
              ["Server '" +:+ server_name +:+ "' (stdio) missing 'command' field"]
            else []
          else if get_in cfg "type" ["sse"; "http"] then
            if negb (dict_has "url" cfg) then
              ["Server '" +:+ server_name +:+ "' (" +:+ get_str cfg "type"
                 +:+ ") missing 'url' field"]
            else []
          else [])
      (* Check for placeholder values *)
      ++ placeholder_issues server_name cfg "env" "env var"
      ++ placeholder_issues server_name cfg "headers" "header"
  | _ => ["Server '" +:+ server_name +:+ "' config must be an object"]
  end.

(** [validate_mcp_config(data)]. *)
Definition validate_mcp_config (data : value) : result (list string) :=
  let issues : list string := [] in
  result_bind (contains data "mcpServers") (fun present =>
  if negb present then
    Ok (issues ++ ["Missing 'mcpServers' key in root object"])
  else
    result_bind (getitem data "mcpServers") (fun servers =>
    match servers with
    | PyDict items =>
        Ok (issues ++ flat_map (fun kv => validate_server (fst kv) (snd kv)) items)
    | _ => Ok (issues ++ ["'mcpServers' must be an object"])
    end)).

Definition valid_keys : list string :=
  ["model"; "statusLine"; "hooks"; "outputStyle"; "memory"].

Definition valid_models : list string :=
  ["sonnet"; "haiku"; "opus"; "claude-3-5-sonnet-20241022"; "claude-3-5-haiku-20241022"].

(** [in] for two strings of a list. *)
Definition str_in (s : string) (l : list string) : bool := existsb (String.eqb s) l.

(** [data.keys()]. *)
Definition keys (data : value) : result (list string) :=
  match data with
  | PyDict entries => Ok (map fst entries)
  | _ =>
      Raise (AttributeError ("'" +:+ type_name data +:+ "' object has no attribute 'keys'"))
  end.

(** The part of [validate_claude_settings] under [if "statusLine" in data]. *)
Definition statusLine_issues (status_config : value) : list string :=
  match status_config with
  | PyDict sc =>
      if negb (dict_has "type" sc) then ["statusLine missing 'type' field"]
      else if get_eq sc "type" "command" && negb (dict_has "command" sc) then
        ["statusLine with type 'command' missing 'command' field"]
      else []
  | _ => []
  end.

(** [validate_claude_settings(data)]. *)
Definition validate_claude_settings (data : value) : result (list string) :=
  let issues : list string := [] in
  (* Check for known configuration keys *)
  result_bind (keys data) (fun ks =>
  let unknown_keys := List.filter (fun k => negb (str_in k valid_keys)) ks in
  let issues :=
    match unknown_keys with
    | [] => issues
    | _ => issues ++ ["Unknown configuration keys: " +:+ str_join ", " (set_iter unknown_keys)]
    end in
  (* Validate model *)
  result_bind (contains data "model") (fun has_model =>
  result_bind
    (if has_model then
       result_bind (getitem data "model") (fun model =>
       result_bind (set_contains valid_models model) (fun known =>
       if negb known then
         Ok (issues ++ ["Unknown model '" +:+ py_str model
                          +:+ "'. Consider using one of: "
                          +:+ str_join ", " (set_iter valid_models)])
       else Ok issues))
     else Ok issues) (fun issues =>
  (* Validate statusLine *)
  result_bind (contains data "statusLine") (fun has_status =>
  if has_status then
    result_bind (getitem data "statusLine") (fun status_config =>
    Ok (issues ++ statusLine_issues status_config))
  else Ok issues)))).

(** [main()]. *)
Definition main : M unit :=
  let issues_found := false in
  print "🔍 Validating Claude Settings Repository Configuration..." ;;
  print EmptyString ;;
  (* Validate .mcp.json *)
  print "📋 Validating MCP configuration (.mcp.json)..." ;;
  let* mcp_result := validate_json_file (joinpath repo_root ".mcp.json") in
  let* mcp_valid := lift (getitem mcp_result "valid") in
  let* issues_found :=
    if negb (truthy mcp_valid) then
      let* error := lift (getitem mcp_result "error") in
      print ("❌ .mcp.json: " +:+ py_str error) ;;
      ret true
    else
      let* data := lift (getitem mcp_result "data") in
      let* mcp_issues := lift (validate_mcp_config data) in
      match mcp_issues with
      | _ :: _ =>
          print "⚠️  .mcp.json issues found:" ;;
          for_each mcp_issues (fun issue => print ("   • " +:+ issue)) ;;
          ret true
      | [] =>
          print "✅ .mcp.json is valid" ;;
          ret issues_found
      end in
  print EmptyString ;;
  (* Validate .claude/settings.json *)
  print "⚙️  Validating Claude settings (.claude/settings.json)..." ;;
  let* settings_result :=
    validate_json_file (joinpath (joinpath repo_root ".claude") "settings.json") in
  let* settings_valid := lift (getitem settings_result "valid") in
  let* issues_found :=
    if negb (truthy settings_valid) then
      let* error := lift (getitem settings_result "error") in
      print ("❌ .claude/settings.json: " +:+ py_str error) ;;
      ret true
    else
      let* data := lift (getitem settings_result "data") in
      let* settings_issues := lift (validate_claude_settings data) in
      match settings_issues with
      | _ :: _ =>
          print "⚠️  .claude/settings.json issues found:" ;;
          for_each settings_issues (fun issue => print ("   • " +:+ issue)) ;;
          ret true
      | [] =>
          print "✅ .claude/settings.json is valid" ;;
          ret issues_found
      end in
  print EmptyString ;;
  (* Check for required directories *)
  print "📁 Checking directory structure..." ;;
  let required_dirs := [".claude/hooks/logs"; ".claude/cache"; ".claude/tmp"] in
  for_each required_dirs (fun dir_path =>
    let full_path := joinpath repo_root dir_path in
    let* there := path_exists full_path in
    if there then print ("✅ " +:+ dir_path +:+ " exists")
    else print ("⚠️  " +:+ dir_path +:+ " does not exist (will be created when needed)")) ;;
  print EmptyString ;;
  (* Check for .env file *)
  print "🔐 Checking environment configuration..." ;;
  let env_file := joinpath repo_root ".env" in
  let env_example := joinpath repo_root ".env.example" in
  let* example_there := path_exists env_example in
  let* issues_found :=
    if example_there then
      print "✅ .env.example found" ;;
      ret issues_found
    else
      print "⚠️  .env.example not found" ;;
      ret true in
  let* env_there := path_exists env_file in
  (if env_there then print "✅ .env file found"
   else print "ℹ️  .env file not found (optional, but recommended for API keys)") ;;
  print EmptyString ;;
  (* Final summary *)
  if issues_found then
    print "❌ Configuration validation completed with issues" ;;
    raise (SystemExit 1)
  else
    print "✅ All configuration files are valid!" ;;
    raise (SystemExit 0).

(** ** setup.py *)

Definition directories : list string :=
  [".claude/hooks/logs"; ".claude/cache"; ".claude/tmp"; ".claude/agents";
   ".claude/commands"].

(** [create_directory_structure()]. *)
Definition create_directory_structure : M unit :=
  print "📁 Creating directory structure..." ;;
  for_each directories (fun dir_path =>
    let full_path := joinpath repo_root dir_path in
    let* there := path_exists full_path in
    if there then print ("✅ " +:+ dir_path +:+ " already exists")
    else
      Path_mkdir full_path true true ;;
      print ("✨ Created " +:+ dir_path)) ;;
  print EmptyString.

(** *** The text typed at the prompt *)

(** What [input()] gives: the line typed, or one of the two exceptions that
    [setup_environment_file] catches around the call. *)
Inductive input_outcome : Type :=
| InputLine (line : string)
| InputEOFError
| InputKeyboardInterrupt.

(** The characters that [str.strip()] removes, each in UTF-8: the ones for
    which [str.isspace()] holds. *)
Definition WHITESPACE : list string :=
  map chr [9; 10; 11; 12; 13; 28; 29; 30; 31; 32; 133; 160; 5760;
           8192; 8193; 8194; 8195; 8196; 8197; 8198; 8199; 8200; 8201; 8202;
           8232; 8233; 8239; 8287; 12288]%N.

(** The number of bytes of the first pattern that starts [s], 0 when none
    does. *)
Fixpoint leading (patterns : list string) (s : string) : nat :=
  match patterns with
  | [] => 0
  | p :: rest => if String.prefix p s then String.length p else leading rest s
  end.

(** [s] without the patterns it starts with; [skip] bytes of a pattern
    already found are still to be dropped. *)
Fixpoint drop_leading (patterns : list string) (skip : nat) (s : string) : string :=
  match s with
  | EmptyString => EmptyString
  | String _ rest =>
      match skip with
      | S k => drop_leading patterns k rest
      | O =>
          match leading patterns s with
          | S k => drop_leading patterns k rest
          | O => s
          end
      end
  end.

Fixpoint str_rev_onto (s acc : string) : string :=
  match s with
  | EmptyString => acc
  | String c rest => str_rev_onto rest (String c acc)
  end.

(** [s[::-1]], on bytes. *)
Definition str_rev (s : string) : string := str_rev_onto s EmptyString.

(** [s.strip()]: a pattern, read backwards, ends the text exactly where the
    character it encodes ends it. *)
Definition str_strip (s : string) : string :=
  str_rev (drop_leading (map str_rev WHITESPACE) 0
             (str_rev (drop_leading WHITESPACE 0 s))).

(** [input(prompt)]: the prompt goes to the standard output. *)
Definition input (prompt : string) (answer : input_outcome) : M input_outcome :=
  fun w => (World (fs w) (stdout w ++ [prompt]), Ok answer).

(** *** Files opened by setup.py

    [setup_environment_file] opens its files with the encoding of the locale,
    taken to be UTF-8 here, as [content] is. *)

(** [open(p, 'r')]: what the file holds, when it can be opened. *)
Definition open_for_reading (p : path) : M content :=
  fun w =>
    match stat (fs w) p with
    | Raise e => (w, Raise e)
    | Ok Dir => (w, Raise IsADirectoryError)
    | Ok (File Unreadable) => (w, Raise PermissionError)
    | Ok (File c) => (w, Ok c)
    end.

(** [src.read()] on a file opened for reading. *)
Definition read_opened (c : content) : result string :=
  match c with
  | Text s => Ok s
  | Undecodable | Unreadable => Raise UnicodeDecodeError
  end.

(** [open(p, 'w')]: the file is created, or emptied, at once. *)
Definition open_for_writing (p : path) : M unit :=
  fun w =>
    match p with
    | [] => (w, Raise IsADirectoryError)
    | _ =>
        match stat (fs w) (removelast p) with
        | Raise e => (w, Raise e)
        | Ok (File _) => (w, Raise NotADirectoryError)
        | Ok Dir =>
            match fs w !! p with
            | Some Dir => (w, Raise IsADirectoryError)
            | Some (File Unreadable) => (w, Raise PermissionError)
            | Some (File _) | None =>
                (World (<[p := File (Text EmptyString)]> (fs w)) (stdout w), Ok tt)
            end
        end
    end.

(** [dst.write(text)] on the file opened at [p], then its closing. *)
Definition write_opened (p : path) (text : string) : M unit :=
  fun w => (World (<[p := File (Text text)]> (fs w)) (stdout w), Ok tt).

(** [os.chmod(p, 0o755)].  The modes of files are not part of [world];
    [chmod_allowed] tells whether the system lets the process set them. *)
Definition os_chmod (chmod_allowed : path -> bool) (p : path) : M unit :=
  fun w => if chmod_allowed p then (w, Ok tt) else (w, Raise PermissionError).

(** [setup_environment_file()], [answer] being what [input()] gives if it is
    called. *)
Definition setup_environment_file (answer : input_outcome) : M unit :=
  let env_file := joinpath repo_root ".env" in
  let env_example := joinpath repo_root ".env.example" in
  print "🔐 Environment configuration..." ;;
  let* env_there := path_exists env_file in
  if env_there then print "✅ .env file already exists"
  else
    let* example_there := path_exists env_example in
    if negb example_there then
      print "⚠️  .env.example not found, skipping environment setup"
    else
      print "📝 .env file not found." ;;
      let* got := input "Would you like to create one from .env.example? (y/N): " answer in
      let* response :=
        match got with
        | InputLine line => ret (str_lower (str_strip line))
        | InputEOFError | InputKeyboardInterrupt => print "n" ;; ret "n"
        end in
      (if str_in response ["y"; "yes"] then
         try_except
           (let* src := open_for_reading env_example in
            open_for_writing env_file ;;
            let* text := lift (read_opened src) in
            write_opened env_file text ;;
            print "✨ Created .env from .env.example" ;;
            print "⚠️  Remember to edit .env with your actual API keys!")
           (fun e =>
              if is_Exception e
              then print ("❌ Failed to create .env file: " +:+ exn_str e)
              else raise e)
       else print "ℹ️  Skipping .env creation. You can copy .env.example manually later.") ;;
      print EmptyString.

(** [set_permissions()]. *)
Definition set_permissions (chmod_allowed : path -> bool) : M unit :=
  let scripts := ["validate-config.py"; ".claude/hooks/log-hooks.py"] in
  print "🔧 Setting script permissions..." ;;
  for_each scripts (fun script_path =>
    let full_path := joinpath repo_root script_path in
    let* there := path_exists full_path in
    if there then
      try_except
        (os_chmod chmod_allowed full_path ;;
         print ("✅ Set executable permissions for " +:+ script_path))
        (fun e =>
           if is_Exception e
           then print ("⚠️  Failed to set permissions for " +:+ script_path +:+ ": "
                         +:+ exn_str e)
           else raise e)
    else print ("⚠️  Script not found: " +:+ script_path)) ;;
  print EmptyString.

(** [spec.loader.exec_module(validate_module)]: the source of the module is
    read, and is taken to be the [validate-config.py] modelled above, whose
    top level only defines its functions. *)
Definition exec_module (p : path) : M unit :=
  let* source := open_read p in ret tt.

(** [validate_configuration()].  The handler of [ImportError] has nothing to
    catch: no step of the body raises it.  [None] stands for leaving the [try]
    statement without a [return]. *)
Definition validate_configuration : M bool :=
  print "🔍 Running configuration validation..." ;;
  let* returned :=
    try_except
      (exec_module (joinpath repo_root "validate-config.py") ;;
       (* Capture validation result *)
       main ;;
       ret None)
      (fun e =>
         match e with
         | SystemExit code =>
             if (code =? 0)%Z then
               print "✅ Configuration validation passed!" ;;
               ret None
             else
               print "⚠️  Configuration validation found issues (see above)" ;;
               ret (Some false)
         | _ =>
             if is_Exception e then
               print ("❌ Validation failed with error: " +:+ exn_str e) ;;
               ret (Some false)
             else raise e
         end) in
  match returned with
  | Some b => ret b
  | None => ret true
  end.

(** [print_next_steps()], [repo_abs] being [Path(__file__).parent.absolute()]
    as text. *)
Definition print_next_steps (repo_abs : string) : M unit :=
  print "🎉 Setup completed!" ;;
  print EmptyString ;;
  print "📋 Next steps:" ;;
  print "1. Edit .env file with your actual API keys (if created)" ;;
  print "2. Set CLAUDE_PROJECT_DIR environment variable:" ;;
  print ("   export CLAUDE_PROJECT_DIR=" +:+ repo_abs) ;;
  print "3. Test your configuration:" ;;
  print "   ./validate-config.py" ;;
  print "4. Start using Claude with your custom settings!" ;;
  print EmptyString ;;
  print "📚 See README.md for detailed usage instructions.".

(** [main()] of setup.py.  [KeyboardInterrupt] comes from the keyboard only
    and is not modelled. *)
Definition setup_main (answer : input_outcome) (chmod_allowed : path -> bool)
    (repo_abs : string) : M unit :=
  print "🚀 Claude Settings Repository Setup" ;;
  print "===================================" ;;
  print EmptyString ;;
  try_except
    (create_directory_structure ;;
     setup_environment_file answer ;;
     set_permissions chmod_allowed ;;
     (* Only show success if validation passes *)
     let* passed := validate_configuration in
     if passed then print_next_steps repo_abs
     else
       print EmptyString ;;
       print "⚠️  Setup completed but with configuration issues." ;;
       print "   Please review the validation output above and fix any issues.")
    (fun e =>
       if is_Exception e then
         print (String (ascii_of_nat 10) "❌ Setup failed with error: " +:+ exn_str e) ;;
         raise (SystemExit 1)
       else raise e).

(** *** What the validators accept, and programs that only read *)

(** The dict under [field], if there is one, has no placeholder value. *)
Definition placeholders_free (cfg : list (string * value)) (field : string) : bool :=
  match dict_get field cfg with
  | Some (PyDict items) => forallb (fun kv => negb (is_placeholder (snd kv))) items
  | _ => true
  end.

(** A server configuration in which [validate_mcp_config] finds nothing: an
    object whose type is stdio with a command, or sse or http with a url, and
    without placeholder in env and headers. *)
Definition server_ok (config : value) : bool :=
  match config with
  | PyDict cfg =>
      (get_eq cfg "type" "stdio" && dict_has "command" cfg
       || get_in cfg "type" ["sse"; "http"] && dict_has "url" cfg)
      && placeholders_free cfg "env" && placeholders_free cfg "headers"
  | _ => false
  end.

(** Settings in which [validate_claude_settings] finds nothing: known keys
    only, a known model if any, and a statusLine that, when it is an object,
    has a type, and a command when the type is command. *)
Definition settings_ok (entries : list (string * value)) : bool :=
  forallb (fun k => str_in k valid_keys) (map fst entries)
  && match dict_get "model" entries with
     | Some model => existsb (eq_str model) valid_models
     | None => true
     end
  && match dict_get "statusLine" entries with
     | Some (PyDict sc) =>
         dict_has "type" sc && (negb (get_eq sc "type" "command") || dict_has "command" sc)
     | _ => true
     end.

(** A program that leaves the file system as it is and only adds to the
    standard output. *)
Definition read_only {A : Type} (m : M A) : Prop :=
  forall w, fs (fst (m w)) = fs w /\ exists out, stdout (fst (m w)) = stdout w ++ out.

(** A computation of the decoder of [doc] that, if it raises, raises
    [JSONDecodeError] about [doc], [StopIteration] or [RecursionError]. *)
Definition raises_decoder_error {A : Type} (doc : string) (r : result A) : Prop :=
  match r with
  | Ok _ => True
  | Raise (JSONDecodeError _ d _) => d = doc
  | Raise (StopIteration _) | Raise RecursionError => True
  | Raise _ => False
  end.

(** *** What a program does to the file system, and what it raises *)

(** After the program the file system is related by [R] to the one before,
    and the standard output has only been added to. *)
Definition keeps {A : Type} (R : gmap path node -> gmap path node -> Prop) (m : M A)
  : Prop :=
  forall w, R (fs w) (fs (fst (m w))) /\ exists out, stdout (fst (m w)) = stdout w ++ out.

(** The program raises no exception but the [allowed] ones. *)
Definition raises_only {A : Type} (allowed : exn -> bool) (m : M A) : Prop :=
  forall w e, snd (m w) = Raise e -> allowed e = true.

(** [f'] has every entry of [f], and besides them only directories and the
    file [.env]. *)
Definition only_dirs_and_env_added (f f' : gmap path node) : Prop :=
  f ⊆ f' /\
  forall q n, f' !! q = Some n ->
    f !! q = Some n \/ n = Dir \/ q = joinpath repo_root ".env".

(** ** Redaction of hook events *)

(** Modelled from the spec: the hook logger [.claude/hooks/log-hooks.py] is not
    among the sources.  Section 3 of the specification lists the Sensitive-Key
    Set; section 4.2, steps 1 to 3, gives the algorithm. *)
Definition SENSITIVE_KEYS : list string :=
  [ "token"; "password"; "secret"; "authorization"; "cookie"; "session";
    "api_key"; "access_token"; "refresh_token"; "key"; "auth"; "bearer";
    "oauth"; "jwt"; "private_key"; "client_secret"; "client_id";
    "webhook_secret"; "signing_secret" ].

Definition REDACTED : string := "<redacted>".

(** Modelled from the spec: matching is on the lower-cased exact name. *)
Definition is_sensitive (key : string) : bool :=
  existsb (String.eqb (str_lower key)) SENSITIVE_KEYS.

(** Modelled from the spec: section 4.2, steps 1 (mapping), 2 (sequence) and
    3 (any other value). *)
Fixpoint redact (v : value) : value :=
  match v with
  | PyDict entries =>
      PyDict (map (fun kv =>
                     match kv with
                     | (k, x) => (k, if is_sensitive k then PyStr REDACTED else redact x)
                     end) entries)
  | PyList items => PyList (map redact items)
  | _ => v
  end.

(** What [redact] does to one item of a dict. *)
Definition redact_entry (kv : string * value) : string * value :=
  match kv with
  | (k, x) => (k, if is_sensitive k then PyStr REDACTED else redact x)
  end.

(** A position inside a value: a key of a dict or an index of a list. *)
Inductive step : Type :=
| Key (k : string)
| Index (i : nat).

Fixpoint value_at (p : list step) (v : value) : option value :=
  match p with
  | [] => Some v
  | Key k :: p' =>
      match v with
      | PyDict entries =>
          match dict_get k entries with
          | Some x => value_at p' x
          | None => None
          end
      | _ => None
      end
  | Index i :: p' =>
      match v with
      | PyList items =>
          match nth_error items i with
          | Some x => value_at p' x
          | None => None
          end
      | _ => None
      end
  end.

(** No key on the way is a sensitive one. *)
Fixpoint clear_path (p : list step) : bool :=
  match p with
  | [] => true
  | Key k :: p' => negb (is_sensitive k) && clear_path p'
  | Index _ :: p' => clear_path p'
  end.

(** No dict inside the value has a sensitive key. *)
Fixpoint no_sensitive_key (v : value) : bool :=
  match v with
  | PyDict entries =>
      forallb (fun kv =>
                 match kv with
                 | (k, x) => negb (is_sensitive k) && no_sensitive_key x
                 end) entries
  | PyList items => forallb no_sensitive_key items
  | _ => true
  end.

(** * Properties *)

(** ** Induction over values *)

Lemma value_nested_ind (P : value -> Prop) :
  P PyNone ->
  (forall b, P (PyBool b)) ->
  (forall n, P (PyInt n)) ->
  (forall x, P (PyFloat x)) ->
  (forall s, P (PyStr s)) ->
  (forall items, Forall P items -> P (PyList items)) ->
  (forall entries, Forall (fun kv => P (snd kv)) entries -> P (PyDict entries)) ->
  forall v, P v.
Proof.
  intros Hnone Hbool Hint Hfloat Hstr Hlist Hdict.
  fix IH 1. intros [| b | n | x | s | items | entries].
  - exact Hnone.
  - apply Hbool.
  - apply Hint.
  - apply Hfloat.
  - apply Hstr.
  - apply Hlist. induction items as [| v items IHitems]; constructor.
    + apply IH.
    + exact IHitems.
  - apply Hdict. induction entries as [| [k v] entries IHentries]; constructor.
    + apply IH.
    + exact IHentries.
Qed.

(** ** The exceptions of the decoder and of the file system *)

Lemma scanstring_loop_Exception doc begin n : forall s pos chunks,
  String.length s <= n ->
  raises_Exception (scanstring_loop doc begin s pos chunks).
Proof.
  induction n as [| n IH]; intros s pos chunks Hlen.
  - destruct s; [exact eq_refl | simpl in Hlen; lia].
  - destruct s as [| c rest]; [exact eq_refl |].
    simpl. repeat case_match; subst; try exact eq_refl; try exact I;
      apply IH; simpl in Hlen |- *; lia.
Qed.

Lemma scanstring_Exception doc s pos : raises_Exception (scanstring doc s pos).
Proof. apply (scanstring_loop_Exception _ _ (String.length s)). lia. Qed.

Lemma expecting_value_Exception {A : Type} doc (r : result A) :
  raises_Exception r -> raises_Exception (expecting_value doc r).
Proof. destruct r as [a | []]; simpl; auto. Qed.

Lemma scan_Exception doc fuel : forall depth s pos,
  raises_Exception (scan_once doc fuel depth s pos) /\
  (forall values, raises_Exception (array_loop doc fuel depth s pos values)) /\
  (forall pairs, raises_Exception (object_loop doc fuel depth s pos pairs)).
Proof.
  induction fuel as [| fuel IH]; intros depth s pos.
  - repeat split.
  - split; [| split].
    + simpl. destruct s as [| nextchar rest]; [exact eq_refl |].
      pose proof (scanstring_Exception doc rest (S pos)) as Hstr.
      unfold JSONObject, JSONArray.
      repeat case_match; subst; simpl in *; try exact eq_refl; try exact I;
        try assumption; apply IH.
    + intros values. simpl.
      pose proof (expecting_value_Exception doc _ (proj1 (IH depth s pos))) as Hv.
      repeat case_match; subst; simpl in *; try exact eq_refl; try exact I;
        try assumption; apply IH.
    + intros pairs. simpl.
      pose proof (scanstring_Exception doc s pos) as Hstr.
      destruct (scanstring doc s pos) as [[[key s1] end1] | e]; [| exact Hstr].
      destruct (skip_ws s1 end1) as [s2 end2].
      destruct s2 as [| colon s3]; [exact eq_refl |].
      destruct (Ascii.eqb colon ":"); [| exact eq_refl].
      destruct (skip_ws s3 (S end2)) as [s4 end4].
      pose proof (expecting_value_Exception doc _ (proj1 (IH depth s4 end4))) as Hv.
      repeat case_match; subst; simpl in *; try exact eq_refl; try exact I;
        try assumption; apply IH.
Qed.

Lemma json_loads_Exception s : raises_Exception (json_loads s).
Proof.
  unfold json_loads, decode.
  destruct (String.prefix BOM s); [exact eq_refl |].
  destruct (skip_ws s 0) as [s0 idx].
  pose proof (expecting_value_Exception s _
    (proj1 (scan_Exception s (2 * String.length s + 2) recursion_limit s0 idx))) as Hv.
  repeat case_match; subst; simpl in *; try exact eq_refl; try exact I; assumption.
Qed.

Lemma stat_walk_Exception f : forall rest cur, raises_Exception (stat_walk f cur rest).
Proof.
  induction rest as [| c rest IH]; intros cur; simpl;
    repeat case_match; try exact eq_refl; try exact I; apply IH.
Qed.

Lemma read_text_Exception f p : raises_Exception (read_text f p).
Proof.
  unfold read_text, stat. pose proof (stat_walk_Exception f p []) as H.
  repeat case_match; try exact eq_refl; try exact I; assumption.
Qed.

(** ** The fuel of the decoder *)

Lemma skip_ws_shorter : forall s pos s1 end1,
  skip_ws s pos = (s1, end1) -> String.length s1 <= String.length s.
Proof.
  induction s as [| c s IH]; intros pos s1 end1; cbn [skip_ws].
  - intros [= <- _]. lia.
  - destruct (ws_char c).
    + intros H. apply IH in H. cbn [String.length]. lia.
    + intros [= <- _]. lia.
Qed.

Lemma str_drop_shorter : forall n s, String.length (str_drop n s) <= String.length s.
Proof.
  induction n as [| n IH]; intros s; [cbn; lia |].
  destruct s as [| c s]; cbn [str_drop String.length]; [lia |].
  specialize (IH s). lia.
Qed.

Lemma span_digits_shorter : forall s ds rest,
  span_digits s = (ds, rest) -> String.length rest <= String.length s.
Proof.
  induction s as [| c s IH]; intros ds rest; cbn [span_digits].
  - intros [= _ <-]. lia.
  - destruct (is_digit c).
    + destruct (span_digits s) as [ds' tl] eqn:E. intros [= _ <-].
      specialize (IH _ _ eq_refl). cbn [String.length]. lia.
    + intros [= _ <-]. lia.
Qed.

Lemma span_digits_digit c s ds rest :
  is_digit c = true -> span_digits (String c s) = (ds, rest) ->
  String.length rest <= String.length s.
Proof.
  cbn [span_digits]. intros ->.
  destruct (span_digits s) as [ds' tl] eqn:E. intros [= _ <-].
  eapply span_digits_shorter, E.
Qed.

Lemma match_number_shorter s integer frac exp rest :
  match_number s = Some (integer, frac, exp, rest) ->
  String.length rest < String.length s.
Proof.
  unfold match_number.
  destruct (match s with
            | String c rest0 => if Ascii.eqb c "-" then ("-", rest0) else (EmptyString, s)
            | EmptyString => (EmptyString, s)
            end) as [sign s1] eqn:Hsign.
  assert (H1 : String.length s1 <= String.length s).
  { destruct s as [| c0 r0]; [injection Hsign as _ <-; lia |].
    destruct (Ascii.eqb c0 "-"); injection Hsign as _ <-; cbn [String.length]; lia. }
  destruct s1 as [| c r]; [discriminate |].
  destruct (is_digit c) eqn:Hdigit; [| discriminate].
  destruct (if Ascii.eqb c "0" then ("0", r) else span_digits (String c r))
    as [digits s2] eqn:Hdigits.
  assert (H2 : String.length s2 <= String.length r).
  { destruct (Ascii.eqb c "0"); [injection Hdigits as _ <-; lia |].
    eapply span_digits_digit; eassumption. }
  destruct (match s2 with
            | String d r0 =>
                let (fd, r') := span_digits r0 in
                if Ascii.eqb d "." && negb (String.eqb fd EmptyString)
                then ("." +:+ fd, r') else (EmptyString, s2)
            | EmptyString => (EmptyString, s2)
            end) as [fr s3] eqn:Hfrac.
  assert (H3 : String.length s3 <= String.length s2).
  { destruct s2 as [| d r0]; [injection Hfrac as _ <-; lia |].
    destruct (span_digits r0) as [fd r'] eqn:E. apply span_digits_shorter in E.
    destruct (Ascii.eqb d "." && negb (String.eqb fd EmptyString));
      injection Hfrac as _ <-; cbn [String.length]; lia. }
  match goal with
  | |- (let (_, _) := ?t in _) = _ -> _ => destruct t as [ex s4] eqn:Hexp
  end.
  assert (H4 : String.length s4 <= String.length s3).
  { destruct s3 as [| e r0]; [injection Hexp as _ <-; lia |].
    destruct (match r0 with
              | String g r' =>
                  if Ascii.eqb g "+" || Ascii.eqb g "-"
                  then (str_of_char g, r') else (EmptyString, r0)
              | EmptyString => (EmptyString, r0)
              end) as [sg r1] eqn:Hsg.
    assert (String.length r1 <= String.length r0).
    { destruct r0 as [| g r']; [injection Hsg as _ <-; lia |].
      destruct (Ascii.eqb g "+" || Ascii.eqb g "-"); injection Hsg as _ <-;
        cbn [String.length]; lia. }
    destruct (span_digits r1) as [ed r2] eqn:E. apply span_digits_shorter in E.
    destruct ((Ascii.eqb e "e" || Ascii.eqb e "E") && negb (String.eqb ed EmptyString));
      injection Hexp as _ <-; cbn [String.length]; lia. }
  intros [= _ _ _ <-]. cbn [String.length] in *. lia.
Qed.

Lemma scanstring_loop_shorter doc begin n : forall s pos chunks str rest pos',
  String.length s <= n ->
  scanstring_loop doc begin s pos chunks = Ok (str, rest, pos') ->
  String.length rest < String.length s.
Proof.
  induction n as [| n IH]; intros s pos chunks str rest pos' Hlen.
  - destruct s; [discriminate | cbn in Hlen; lia].
  - destruct s as [| c s]; [discriminate |].
    cbn [scanstring_loop].
    repeat (case_match; try discriminate); subst;
      try (intros [= _ <- _]; cbn [String.length]; lia);
      intros Hrec; apply IH in Hrec; cbn [String.length] in *; lia.
Qed.

Lemma scanstring_shorter doc s pos str rest pos' :
  scanstring doc s pos = Ok (str, rest, pos') ->
  String.length rest < String.length s.
Proof. apply (scanstring_loop_shorter _ _ (String.length s)). lia. Qed.

Lemma expecting_value_Ok {A : Type} doc (r : result A) a :
  expecting_value doc r = Ok a -> r = Ok a.
Proof. destruct r as [? | []]; cbn; congruence. Qed.

(** Lengths of what remains, read off the equations of a case analysis. *)
Ltac lengths IH :=
  repeat match goal with
    | H : skip_ws _ _ = (_, _) |- _ => apply skip_ws_shorter in H
    | H : scanstring _ _ _ = Ok _ |- _ => apply scanstring_shorter in H
    | H : match_number _ = Some _ |- _ => apply match_number_shorter in H
    | H : expecting_value _ _ = Ok _ |- _ => apply expecting_value_Ok in H
    | H : scan_once _ _ _ _ _ = Ok _ |- _ => apply IH in H
    | H : array_loop _ _ _ _ _ _ = Ok _ |- _ => apply IH in H
    | H : object_loop _ _ _ _ _ _ = Ok _ |- _ => apply IH in H
    end.

Lemma scan_shorter doc fuel : forall depth s pos,
  (forall v rest pos',
     scan_once doc fuel depth s pos = Ok (v, rest, pos') ->
     String.length rest < String.length s) /\
  (forall values v rest pos',
     array_loop doc fuel depth s pos values = Ok (v, rest, pos') ->
     String.length rest < String.length s) /\
  (forall pairs v rest pos',
     object_loop doc fuel depth s pos pairs = Ok (v, rest, pos') ->
     String.length rest < String.length s).
Proof.
  induction fuel as [| fuel IH]; intros depth s pos; [repeat split; discriminate |].
  split; [| split].
  - intros v rest pos'. cbn [scan_once]. unfold JSONObject, JSONArray.
    repeat (case_match; try discriminate); subst;
      try (intros Hrec; apply IH in Hrec);
      try (intros [= _ <- _]);
      lengths IH;
      try pose proof (str_drop_shorter 3 s0);
      try pose proof (str_drop_shorter 4 s0);
      try pose proof (str_drop_shorter 2 s0);
      try pose proof (str_drop_shorter 7 s0);
      try pose proof (str_drop_shorter 8 s0);
      cbn [String.length str_drop] in *; lia.
  - intros values v rest pos'. cbn [array_loop].
    repeat (case_match; try discriminate); subst;
      try (intros Hrec; apply IH in Hrec);
      try (intros [= _ <- _]);
      lengths IH; cbn [String.length] in *; lia.
  - intros pairs v rest pos'. cbn [object_loop].
    repeat (case_match; try discriminate); subst;
      try (intros Hrec; apply IH in Hrec);
      try (intros [= _ <- _]);
      lengths IH; cbn [String.length] in *; lia.
Qed.

Ltac consumed :=
  repeat match goal with
    | H : skip_ws _ _ = (_, _) |- _ => apply skip_ws_shorter in H
    | H : scanstring _ _ _ = Ok _ |- _ => apply scanstring_shorter in H
    | H : expecting_value _ _ = Ok _ |- _ => apply expecting_value_Ok in H
    | H : scan_once _ _ _ _ _ = Ok _ |- _ => apply (proj1 (scan_shorter _ _ _ _ _)) in H
    end;
  cbn [String.length] in *; lia.

(** One more unit of fuel changes nothing once there is twice the length of
    the text, and one or two more. *)
Lemma scan_fuel_step doc fuel : forall depth s pos,
  (2 * String.length s + 1 <= fuel ->
   scan_once doc (S fuel) depth s pos = scan_once doc fuel depth s pos) /\
  (forall values,
     2 * String.length s + 2 <= fuel ->
     array_loop doc (S fuel) depth s pos values = array_loop doc fuel depth s pos values) /\
  (forall pairs,
     2 * String.length s + 2 <= fuel ->
     object_loop doc (S fuel) depth s pos pairs = object_loop doc fuel depth s pos pairs).
Proof.
  induction fuel as [| fuel IH]; intros depth s pos; [repeat split; intros; lia |].
  assert (Hscan : forall d t p, 2 * String.length t + 1 <= fuel ->
            scan_once doc (S fuel) d t p = scan_once doc fuel d t p)
    by (intros; apply IH; assumption).
  assert (Harray : forall d t p vs, 2 * String.length t + 2 <= fuel ->
            array_loop doc (S fuel) d t p vs = array_loop doc fuel d t p vs)
    by (intros; apply IH; assumption).
  assert (Hobject : forall d t p ps, 2 * String.length t + 2 <= fuel ->
            object_loop doc (S fuel) d t p ps = object_loop doc fuel d t p ps)
    by (intros; apply IH; assumption).
  clear IH. split; [| split].
  - intros Hb. generalize (eq_refl (S fuel)). generalize (S fuel) at 1 3. intros g Hg.
    cbn [scan_once]. subst g. unfold JSONObject, JSONArray.
    repeat first
      [ rewrite Hscan by consumed
      | rewrite Harray by consumed
      | rewrite Hobject by consumed
      | case_match ]; reflexivity.
  - intros values Hb. generalize (eq_refl (S fuel)). generalize (S fuel) at 1 3. intros g Hg.
    cbn [array_loop]. subst g.
    repeat first
      [ rewrite Hscan by consumed
      | rewrite Harray by consumed
      | rewrite Hobject by consumed
      | case_match ]; reflexivity.
  - intros pairs Hb. generalize (eq_refl (S fuel)). generalize (S fuel) at 1 3. intros g Hg.
    cbn [object_loop]. subst g.
    repeat first
      [ rewrite Hscan by consumed
      | rewrite Harray by consumed
      | rewrite Hobject by consumed
      | case_match ]; reflexivity.
Qed.

(** Fuel beyond twice the length of the text and one is never used. *)
Lemma scan_once_fuel doc depth s pos : forall extra,
  scan_once doc (2 * String.length s + 1 + extra) depth s pos =
  scan_once doc (2 * String.length s + 1) depth s pos.
Proof.
  induction extra as [| extra IH]; [rewrite Nat.add_0_r; reflexivity |].
  rewrite Nat.add_succ_r, (proj1 (scan_fuel_step doc _ depth s pos)) by lia. exact IH.
Qed.

(** The fuel that [decode] gives is enough: more of it gives the same result. *)
Lemma decode_fuel doc fuel :
  2 * String.length doc + 2 <= fuel ->
  scan_once doc fuel recursion_limit (fst (skip_ws doc 0)) (snd (skip_ws doc 0)) =
  scan_once doc (2 * String.length doc + 2) recursion_limit
    (fst (skip_ws doc 0)) (snd (skip_ws doc 0)).
Proof.
  intros Hfuel. destruct (skip_ws doc 0) as [s0 idx] eqn:Hws. cbn [fst snd].
  apply skip_ws_shorter in Hws.
  replace fuel with (2 * String.length s0 + 1 + (fuel - (2 * String.length s0 + 1))) by lia.
  replace (2 * String.length doc + 2)
    with (2 * String.length s0 + 1 + (2 * String.length doc + 2 - (2 * String.length s0 + 1)))
    by lia.
  rewrite !scan_once_fuel. reflexivity.
Qed.

(** ** validate-config.py *)

(** What [validate_json_file] returns for the outcome of reading and decoding
    the file. *)
Lemma validate_json_file_unfold file_path w :
  validate_json_file file_path w =
  match load_json (fs w) file_path with
  | Ok data => (w, Ok (PyDict [("valid", PyBool true); ("data", data)]))
  | Raise (JSONDecodeError msg doc pos) =>
      (w, Ok (PyDict [("valid", PyBool false);
                      ("error", PyStr ("JSON parse error: "
                                         +:+ exn_str (JSONDecodeError msg doc pos)))]))
  | Raise FileNotFoundError =>
      (w, Ok (PyDict [("valid", PyBool false); ("error", PyStr "File not found")]))
  | Raise e =>
      (w, Ok (PyDict [("valid", PyBool false);
                      ("error", PyStr ("Unexpected error: " +:+ exn_str e))]))
  end.
Proof.
  unfold validate_json_file, load_json, try_except, bind, open_read, lift, ret, raise.
  pose proof (read_text_Exception (fs w) file_path) as Hread.
  destruct (read_text (fs w) file_path) as [text | e]; simpl in *.
  - pose proof (json_loads_Exception text) as Hloads.
    destruct (json_loads text) as [data | e]; simpl in *; [reflexivity |].
    destruct e; try reflexivity; discriminate.
  - destruct e; try reflexivity; discriminate.
Qed.

(** C6: an empty document is a parse failure of the JSON decoder, and
    [validate_json_file] reports a file that holds it as invalid, with the
    parse error. *)
Theorem empty_input_is_parse_failure (file_path : path) (w : world) :
  read_text (fs w) file_path = Ok EmptyString ->
  json_loads EmptyString = Raise (JSONDecodeError "Expecting value" EmptyString 0) /\
  validate_json_file file_path w =
    (w, Ok (PyDict [("valid", PyBool false);
                    ("error", PyStr "JSON parse error: Expecting value: line 1 column 1 (char 0)")])).
Proof.
  intros Hread. split; [reflexivity |].
  rewrite validate_json_file_unfold. unfold load_json. rewrite Hread. reflexivity.
Qed.

(** C8: for every path and every state of the file system [validate_json_file]
    returns, without raising, a dict whose key "valid" holds a boolean, with a
    key "data" when it is true and a key "error" holding a string when it is
    false. *)
Theorem validate_json_file_total (file_path : path) (w : world) :
  exists (entries : list (string * value)) (valid : bool),
    validate_json_file file_path w = (w, Ok (PyDict entries)) /\
    dict_get "valid" entries = Some (PyBool valid) /\
    if valid then exists data, dict_get "data" entries = Some data
    else exists msg, dict_get "error" entries = Some (PyStr msg).
Proof.
  rewrite validate_json_file_unfold.
  destruct (load_json (fs w) file_path) as [data | e].
  - eexists _, true. split; [reflexivity |]. split; [reflexivity |].
    exists data. reflexivity.
  - destruct e; eexists _, false; (split; [reflexivity |]);
      (split; [reflexivity |]); eexists; reflexivity.
Qed.

(** C9: when the key "mcpServers" is missing, or holds something that is not a
    dict, [validate_mcp_config] returns exactly one issue, the one of the early
    return; no issue of a server is among them. *)
Theorem validate_mcp_config_early_return (entries : list (string * value)) :
  (dict_get "mcpServers" entries = None \/
   exists servers, dict_get "mcpServers" entries = Some servers /\ is_dict servers = false) ->
  exists issue,
    validate_mcp_config (PyDict entries) = Ok [issue] /\
    (issue = "Missing 'mcpServers' key in root object" \/
     issue = "'mcpServers' must be an object").
Proof.
  intros [Hnone | (servers & Hsome & Hnot)]; unfold validate_mcp_config; simpl;
    unfold dict_has.
  - rewrite Hnone. simpl. eexists. split; [reflexivity | left; reflexivity].
  - rewrite Hsome. simpl. destruct servers; try discriminate;
      (eexists; split; [reflexivity | right; reflexivity]).
Qed.

(** C10, at the failing input: with an unknown key and a list under "model",
    [validate_claude_settings] raises [TypeError] and returns no list. *)
Theorem validate_claude_settings_unhashable_model :
  validate_claude_settings (PyDict [("x", PyInt 1); ("model", PyList [])]) =
  Raise (TypeError "unhashable type: 'list'").
Proof. reflexivity. Qed.

(** With a hashable model, or none, a key outside the known ones gives a
    non-empty list of issues. *)
Lemma validate_claude_settings_unknown_key (entries : list (string * value)) (k : string) :
  In k (map fst entries) ->
  str_in k valid_keys = false ->
  match dict_get "model" entries with Some m => hashable m = true | None => True end ->
  exists issue issues, validate_claude_settings (PyDict entries) = Ok (issue :: issues).
Proof.
  intros Hin Hunknown Hmodel.
  unfold validate_claude_settings, keys, contains, getitem, dict_has.
  cbn [result_bind].
  remember (List.filter (fun k => negb (str_in k valid_keys)) (map fst entries)) as unknown
    eqn:Hfilter.
  assert (Hk : In k unknown).
  { subst unknown. apply filter_In. rewrite Hunknown. auto. }
  destruct unknown as [| u us]; [destruct Hk |]. clear Hk Hfilter.
  cbn [app].
  destruct (dict_get "model" entries) as [m |]; cbn [result_bind].
  - assert (Hset : set_contains valid_models m = Ok (existsb (eq_str m) valid_models))
      by (destruct m; try discriminate; reflexivity).
    rewrite Hset. cbn [result_bind].
    destruct (existsb (eq_str m) valid_models); cbn [negb result_bind app];
      destruct (dict_get "statusLine" entries); cbn [result_bind app]; eauto.
  - destruct (dict_get "statusLine" entries); cbn [result_bind app]; eauto.
Qed.

(** Keys among the known ones, without "model" and "statusLine", give no issue. *)
Lemma validate_claude_settings_known_keys (entries : list (string * value)) :
  forallb (fun k => str_in k valid_keys) (map fst entries) = true ->
  dict_get "model" entries = None ->
  dict_get "statusLine" entries = None ->
  validate_claude_settings (PyDict entries) = Ok [].
Proof.
  intros Hall Hmodel Hstatus.
  unfold validate_claude_settings, keys, contains, getitem, dict_has.
  cbn [result_bind].
  assert (Hnil : List.filter (fun k => negb (str_in k valid_keys)) (map fst entries) = []).
  { induction (map fst entries) as [| k ks IH]; [reflexivity |].
    cbn [forallb List.filter] in *. apply andb_prop in Hall as [Hk Hks].
    rewrite Hk. cbn [negb]. auto. }
  rewrite Hnil, Hmodel, Hstatus. reflexivity.
Qed.

(** ** The exit status of [main] *)

(** One statement of a program at a time: what remains to be shown of the
    result when the first statement of a sequence has run. *)
Lemma step_print {A : Type} (line : string) (k : unit -> M A) f out (r : result A) :
  (forall out', snd (k tt (World f out')) = r) ->
  snd (bind (print line) k (World f out)) = r.
Proof. intros H. apply H. Qed.

Lemma step_assoc {A B C : Type} (m : M A) (k1 : A -> M B) (k : B -> M C) w (r : result C) :
  snd (bind m (fun a => bind (k1 a) k) w) = r ->
  snd (bind (bind m k1) k w) = r.
Proof. unfold bind. destruct (m w) as [w' [a | e]]; auto. Qed.

Lemma step_lift_Ok {A B : Type} (a : A) (k : A -> M B) w (r : result B) :
  snd (k a w) = r -> snd (bind (lift (Ok a)) k w) = r.
Proof. auto. Qed.

Lemma step_lift_Raise {A B : Type} (e : exn) (k : A -> M B) w (r : result B) :
  Raise e = r -> snd (bind (lift (Raise e)) k w) = r.
Proof. auto. Qed.

Lemma step_ret {A B : Type} (a : A) (k : A -> M B) w (r : result B) :
  snd (k a w) = r -> snd (bind (ret a) k w) = r.
Proof. auto. Qed.

Lemma step_path_exists {A : Type} (p : path) (k : bool -> M A) f out (r : result A) :
  snd (k (exists_in f p) (World f out)) = r ->
  snd (bind (path_exists p) k (World f out)) = r.
Proof. auto. Qed.

Lemma step_validate_Ok {A : Type} (p : path) (k : value -> M A) f out data (r : result A) :
  load_json f p = Ok data ->
  snd (k (PyDict [("valid", PyBool true); ("data", data)]) (World f out)) = r ->
  snd (bind (validate_json_file p) k (World f out)) = r.
Proof.
  intros Hload H. unfold bind. rewrite validate_json_file_unfold. cbn [fs].
  rewrite Hload. exact H.
Qed.

Lemma step_validate_Raise {A : Type} (p : path) (k : value -> M A) f out e (r : result A) :
  load_json f p = Raise e ->
  (forall msg,
     snd (k (PyDict [("valid", PyBool false); ("error", PyStr msg)]) (World f out)) = r) ->
  snd (bind (validate_json_file p) k (World f out)) = r.
Proof.
  intros Hload H. unfold bind. rewrite validate_json_file_unfold. cbn [fs].
  rewrite Hload. destruct e; apply H.
Qed.

(** A loop whose body only prints only prints. *)
Lemma for_each_prints {A : Type} (body : A -> M unit) (l : list A) :
  (forall x w, exists out, body x w = (World (fs w) out, Ok tt)) ->
  forall w, exists out, for_each l body w = (World (fs w) out, Ok tt).
Proof.
  intros Hbody. induction l as [| x l IH]; intros w; cbn [for_each].
  - exists (stdout w). destruct w; reflexivity.
  - unfold bind. destruct (Hbody x w) as [out ->].
    destruct (IH (World (fs w) out)) as [out' ->]. exists out'. reflexivity.
Qed.

Lemma step_for_each {A B : Type} (body : A -> M unit) (l : list A) (k : unit -> M B)
    f out (r : result B) :
  (forall x w, exists out, body x w = (World (fs w) out, Ok tt)) ->
  (forall out', snd (k tt (World f out')) = r) ->
  snd (bind (for_each l body) k (World f out)) = r.
Proof.
  intros Hbody H. unfold bind.
  destruct (for_each_prints body l Hbody (World f out)) as [out' ->]. apply H.
Qed.

Lemma print_prints (line : string) w :
  exists out, print line w = (World (fs w) out, Ok tt).
Proof. eexists. reflexivity. Qed.

Lemma exists_prints (p : path) (yes no : string) w :
  exists out,
    bind (path_exists p) (fun there => if there then print yes else print no) w =
    (World (fs w) out, Ok tt).
Proof.
  unfold bind, path_exists. destruct (exists_in (fs w) p); eexists; reflexivity.
Qed.

Ltac main_step :=
  cbv beta;
  lazymatch goal with
  | |- snd (bind (print _) _ _) = _ => simple apply step_print; intros ?
  | |- snd (bind (bind _ _) _ _) = _ => simple apply step_assoc
  | |- snd (bind (ret _) _ _) = _ => simple apply step_ret
  | |- snd (bind (lift (Ok _)) _ _) = _ => simple apply step_lift_Ok
  | |- snd (bind (lift (Raise _)) _ _) = _ => simple apply step_lift_Raise; reflexivity
  | |- snd (bind (lift (getitem ?d ?key)) _ _) = _ =>
      let v := eval cbv in (getitem d key) in change (getitem d key) with v
  | |- snd (bind (lift ?c) _ _) = _ => destruct c as [[| ? ?] | ?]
  | |- snd (bind (path_exists _) _ _) = _ => simple apply step_path_exists
  | H : load_json _ ?p = Ok _ |- snd (bind (validate_json_file ?p) _ _) = _ =>
      simple apply (step_validate_Ok _ _ _ _ _ _ H)
  | H : load_json _ ?p = Raise _ |- snd (bind (validate_json_file ?p) _ _) = _ =>
      simple apply (step_validate_Raise _ _ _ _ _ _ H); intros ?
  | |- snd (bind (for_each _ _) _ _) = _ =>
      simple apply step_for_each;
      [ intros ? ?; first [ apply print_prints | apply exists_prints ] | intros ? ]
  | |- snd (bind (if negb (truthy ?v) then _ else _) _ _) = _ =>
      let b := eval cbv in (negb (truthy v)) in
      change (negb (truthy v)) with b; cbv iota
  | |- snd (bind (if ?c then _ else _) _ _) = _ =>
      first [ is_constructor c; cbv iota | destruct c ]
  | |- snd (bind (match ?l with [] => _ | _ :: _ => _ end) _ _) = _ => cbv iota
  | |- snd ((if ?c then _ else _) _) = _ =>
      first [ is_constructor c; cbv iota | destruct c ]
  | |- snd (raise _ _) = _ => reflexivity
  end.

Lemma main_result (w : world) :
  snd (main w) =
  match load_json (fs w) (joinpath repo_root ".mcp.json"),
        load_json (fs w) (joinpath (joinpath repo_root ".claude") "settings.json") with
  | Ok d1, Ok d2 =>
      match validate_mcp_config d1, validate_claude_settings d2 with
      | Ok [], Ok [] =>
          if exists_in (fs w) (joinpath repo_root ".env.example")
          then Raise (SystemExit 0) else Raise (SystemExit 1)
      | Ok _, Ok _ => Raise (SystemExit 1)
      | Raise e, _ => Raise e
      | Ok _, Raise e => Raise e
      end
  | Ok d1, Raise _ =>
      match validate_mcp_config d1 with
      | Ok _ => Raise (SystemExit 1)
      | Raise e => Raise e
      end
  | Raise _, Ok d2 =>
      match validate_claude_settings d2 with
      | Ok _ => Raise (SystemExit 1)
      | Raise e => Raise e
      end
  | Raise _, Raise _ => Raise (SystemExit 1)
  end.
Proof.
  destruct w as [f out]. cbn [fs]. unfold main.
  destruct (load_json f (joinpath repo_root ".mcp.json")) as [d1 | e1] eqn:H1;
    destruct (load_json f (joinpath (joinpath repo_root ".claude") "settings.json"))
      as [d2 | e2] eqn:H2.
  all: repeat main_step.
  all: try reflexivity.
  all: match goal with |- ?G => idtac G end.
Qed.

Lemma validate_mcp_config_Exception data : raises_Exception (validate_mcp_config data).
Proof.
  unfold validate_mcp_config, contains, getitem, dict_has.
  destruct data; cbn [result_bind raises_Exception is_Exception]; try exact eq_refl;
    repeat (case_match; cbn [result_bind raises_Exception is_Exception negb]);
    try exact eq_refl; exact I.
Qed.

Lemma validate_claude_settings_Exception data :
  raises_Exception (validate_claude_settings data).
Proof.
  unfold validate_claude_settings, keys, contains, getitem, set_contains, dict_has.
  destruct data; cbn [result_bind raises_Exception is_Exception]; try exact eq_refl.
  repeat (case_match; cbn [result_bind raises_Exception is_Exception negb]);
    try exact eq_refl; exact I.
Qed.

Lemma exit_status_Exception {A : Type} (e : exn) :
  is_Exception e = true -> exit_status (@Raise A e) = 1%Z.
Proof. destruct e; try reflexivity; discriminate. Qed.


(** ** setup.py *)

Lemma node_at_snoc f (p : path) c : node_at f (p ++ [c]) = f !! (p ++ [c]).
Proof. destruct p; reflexivity. Qed.

Lemma node_at_weaken f f' (p : path) n :
  f ⊆ f' -> node_at f p = Some n -> node_at f' p = Some n.
Proof.
  intros Hsub. destruct p as [| c p]; [auto |]. simpl.
  intros H. eapply lookup_weaken; eassumption.
Qed.

Lemma stat_walk_snoc f : forall (rest cur : path) c,
  stat_walk f cur (rest ++ [c]) =
  match stat_walk f cur rest with
  | Ok Dir =>
      match f !! (cur ++ rest ++ [c]) with
      | Some n => Ok n
      | None => Raise FileNotFoundError
      end
  | Ok (File _) => Raise NotADirectoryError
  | Raise e => Raise e
  end.
Proof.
  induction rest as [| x rest IH]; intros cur c.
  - cbn [app stat_walk]. rewrite node_at_snoc.
    destruct (node_at f cur) as [[| ?] |]; reflexivity.
  - cbn [app stat_walk]. destruct (node_at f cur) as [[| ?] |]; try reflexivity.
    rewrite IH, <- app_assoc. reflexivity.
Qed.

Lemma stat_snoc f (p : path) c :
  stat f (p ++ [c]) =
  match stat f p with
  | Ok Dir =>
      match f !! (p ++ [c]) with
      | Some n => Ok n
      | None => Raise FileNotFoundError
      end
  | Ok (File _) => Raise NotADirectoryError
  | Raise e => Raise e
  end.
Proof. unfold stat. rewrite stat_walk_snoc. reflexivity. Qed.

Lemma stat_walk_weaken f f' : f ⊆ f' -> forall (rest cur : path) n,
  stat_walk f cur rest = Ok n -> stat_walk f' cur rest = Ok n.
Proof.
  intros Hsub. induction rest as [| x rest IH]; intros cur n; cbn [stat_walk].
  - destruct (node_at f cur) as [m |] eqn:E; [| discriminate].
    rewrite (node_at_weaken f f' cur m Hsub E). auto.
  - destruct (node_at f cur) as [[| ?] |] eqn:E; try discriminate.
    rewrite (node_at_weaken f f' cur Dir Hsub E). apply IH.
Qed.

Lemma stat_weaken f f' (p : path) n : f ⊆ f' -> stat f p = Ok n -> stat f' p = Ok n.
Proof. intros Hsub. apply stat_walk_weaken, Hsub. Qed.

Lemma stat_walk_Ok f : forall (rest cur : path) n,
  stat_walk f cur rest = Ok n -> node_at f (cur ++ rest) = Some n.
Proof.
  induction rest as [| x rest IH]; intros cur n; cbn [stat_walk].
  - rewrite app_nil_r. destruct (node_at f cur); congruence.
  - destruct (node_at f cur) as [[| ?] |]; try discriminate.
    intros H. apply IH in H. rewrite <- app_assoc in H. exact H.
Qed.

Lemma stat_walk_Raise f : forall (rest cur : path) e,
  stat_walk f cur rest = Raise e ->
  e = FileNotFoundError \/
  exists q r c, cur ++ rest = q ++ r /\ f !! q = Some (File c).
Proof.
  induction rest as [| x rest IH]; intros cur e; cbn [stat_walk].
  - destruct (node_at f cur); [discriminate |]. intros [= <-]. left. reflexivity.
  - destruct (node_at f cur) as [[| c] |] eqn:E.
    + intros H. apply IH in H as [-> | (q & r & c & Heq & Hq)]; [left; reflexivity |].
      right. exists q, r, c. rewrite <- app_assoc in Heq. auto.
    + intros _. right. exists cur, (x :: rest), c. split; [reflexivity |].
      destruct cur; [discriminate | exact E].
    + intros [= <-]. left. reflexivity.
Qed.

Lemma os_mkdir_snoc (p : path) c w :
  os_mkdir (p ++ [c]) w =
  match stat (fs w) p with
  | Raise e => (w, Raise e)
  | Ok (File _) => (w, Raise NotADirectoryError)
  | Ok Dir =>
      match fs w !! (p ++ [c]) with
      | Some _ => (w, Raise FileExistsError)
      | None => (World (<[p ++ [c] := Dir]> (fs w)) (stdout w), Ok tt)
      end
  end.
Proof.
  unfold os_mkdir. rewrite removelast_last.
  destruct (p ++ [c]) eqn:E; [destruct p; discriminate | reflexivity].
Qed.

Lemma os_mkdir_root w : os_mkdir [] w = (w, Raise FileExistsError).
Proof. reflexivity. Qed.

Lemma is_dir_in_stat f (p : path) : is_dir_in f p = true -> stat f p = Ok Dir.
Proof. unfold is_dir_in. destruct (stat f p) as [[| ?] | ?]; congruence. Qed.

Lemma only_dirs_added_refl f : only_dirs_added f f.
Proof. split; [reflexivity | auto]. Qed.

Lemma only_dirs_added_trans f1 f2 f3 :
  only_dirs_added f1 f2 -> only_dirs_added f2 f3 -> only_dirs_added f1 f3.
Proof.
  intros [S12 A12] [S23 A23]. split; [etransitivity; eassumption |].
  intros q n H. destruct (A23 q n H) as [H2 | ->]; [| auto]. apply A12, H2.
Qed.

Lemma only_dirs_added_insert f (p : path) :
  f !! p = None -> only_dirs_added f (<[p := Dir]> f).
Proof.
  intros Hnone. split; [apply insert_subseteq, Hnone |].
  intros q n. destruct (decide (p = q)) as [-> | Hne].
  - rewrite lookup_insert_eq. intros [= <-]. auto.
  - rewrite lookup_insert_ne by exact Hne. auto.
Qed.

(** What a successful [os.mkdir] has done. *)
Lemma os_mkdir_Ok (p : path) c w w' :
  os_mkdir (p ++ [c]) w = (w', Ok tt) ->
  stdout w' = stdout w /\ only_dirs_added (fs w) (fs w') /\
  stat (fs w') (p ++ [c]) = Ok Dir.
Proof.
  rewrite os_mkdir_snoc.
  destruct (stat (fs w) p) as [[| ?] | ?] eqn:Hparent; try discriminate.
  destruct (fs w !! (p ++ [c])) eqn:Hself; [discriminate |].
  intros [= <-]. cbn [fs stdout].
  pose proof (only_dirs_added_insert (fs w) (p ++ [c]) Hself) as Hadd.
  split; [reflexivity |]. split; [exact Hadd |].
  rewrite stat_snoc, (stat_weaken _ _ _ _ (proj1 Hadd) Hparent), lookup_insert_eq.
  reflexivity.
Qed.

Lemma os_mkdir_Raise (p : path) w w' e :
  os_mkdir p w = (w', Raise e) -> w' = w.
Proof.
  destruct p as [| c p] using rev_ind; [intros [= <- _]; reflexivity |].
  rewrite os_mkdir_snoc. repeat case_match; intros [= <-]; reflexivity.
Qed.

Lemma mkdir_OSError_Ok (p : path) exist_ok e w w' :
  mkdir_OSError p exist_ok e w = (w', Ok tt) ->
  w' = w /\ stat (fs w) p = Ok Dir.
Proof.
  unfold mkdir_OSError, bind, path_is_dir.
  destruct (is_dir_in (fs w) p) eqn:Hdir; destruct exist_ok; cbn; try discriminate.
  intros [= <-]. split; [reflexivity | apply is_dir_in_stat, Hdir].
Qed.

Lemma Path_mkdir_noparents_Ok (p : path) exist_ok w w' :
  Path_mkdir_noparents p exist_ok w = (w', Ok tt) ->
  stdout w' = stdout w /\ only_dirs_added (fs w) (fs w') /\ stat (fs w') p = Ok Dir.
Proof.
  unfold Path_mkdir_noparents, try_except.
  destruct (os_mkdir p w) as [w1 [[] | e]] eqn:Hmk.
  - intros [= <-]. destruct p as [| c p] using rev_ind; [discriminate |].
    apply os_mkdir_Ok, Hmk.
  - apply os_mkdir_Raise in Hmk as ->.
    destruct e; cbn [is_OSError raise]; try discriminate;
      intros H; apply mkdir_OSError_Ok in H as [-> H];
      (split; [reflexivity |]); (split; [apply only_dirs_added_refl | exact H]).
Qed.

Lemma mkdir_rev_Ok : forall (rp : path) parents exist_ok w w',
  mkdir_rev rp parents exist_ok w = (w', Ok tt) ->
  stdout w' = stdout w /\ only_dirs_added (fs w) (fs w') /\
  stat (fs w') (rev rp) = Ok Dir.
Proof.
  induction rp as [| c rparent IH]; intros parents exist_ok w w';
    cbn [mkdir_rev]; unfold try_except.
  - cbn [rev]. rewrite os_mkdir_root. cbn [is_OSError].
    intros H. apply mkdir_OSError_Ok in H as [-> H].
    split; [reflexivity |]. split; [apply only_dirs_added_refl | exact H].
  - destruct (os_mkdir (rev (c :: rparent)) w) as [w1 [[] | e]] eqn:Hmk.
    + intros [= <-]. cbn [rev] in *. apply os_mkdir_Ok, Hmk.
    + apply os_mkdir_Raise in Hmk as ->.
      destruct e; cbn [is_OSError raise]; try discriminate.
      * destruct parents; [| discriminate]. unfold bind.
        destruct (mkdir_rev rparent true true w) as [w2 [[] | e]] eqn:Hparent;
          [| discriminate].
        apply IH in Hparent as (Hout2 & Hadd2 & _).
        intros H. apply Path_mkdir_noparents_Ok in H as (Hout & Hadd & Hstat).
        split; [congruence |]. split; [| exact Hstat].
        eapply only_dirs_added_trans; eassumption.
      * intros H; apply mkdir_OSError_Ok in H as [-> H];
          (split; [reflexivity |]); (split; [apply only_dirs_added_refl | exact H]).
      * intros H; apply mkdir_OSError_Ok in H as [-> H];
          (split; [reflexivity |]); (split; [apply only_dirs_added_refl | exact H]).
      * intros H; apply mkdir_OSError_Ok in H as [-> H];
          (split; [reflexivity |]); (split; [apply only_dirs_added_refl | exact H]).
      * intros H; apply mkdir_OSError_Ok in H as [-> H];
          (split; [reflexivity |]); (split; [apply only_dirs_added_refl | exact H]).
Qed.

Lemma no_file_on_weaken f f' (p : path) :
  only_dirs_added f f' -> no_file_on f p -> no_file_on f' p.
Proof.
  intros [_ Hadd] Hno q r c Heq Hq.
  destruct (Hadd q _ Hq) as [H | H]; [exact (Hno q r c Heq H) | discriminate].
Qed.

Lemma no_file_on_prefix f (p r : path) : no_file_on f (p ++ r) -> no_file_on f p.
Proof.
  intros Hno q r' c ->. apply (Hno q (r' ++ r) c). rewrite app_assoc. reflexivity.
Qed.

(** What stands at a path that has no file on the way is a directory. *)
Lemma stat_no_file f (p : path) n :
  no_file_on f p -> stat f p = Ok n -> n = Dir.
Proof.
  intros Hno Hstat. apply stat_walk_Ok in Hstat. cbn [app] in Hstat.
  destruct n as [| c]; [reflexivity |]. exfalso.
  destruct p as [| x p]; [discriminate |].
  apply (Hno (x :: p) [] c); [rewrite app_nil_r; reflexivity | exact Hstat].
Qed.

Lemma stat_no_file_Raise f (p : path) e :
  no_file_on f p -> stat f p = Raise e -> e = FileNotFoundError.
Proof.
  intros Hno Hstat. apply stat_walk_Raise in Hstat as [-> | (q & r & c & Heq & Hq)];
    [reflexivity |].
  exfalso. exact (Hno q r c Heq Hq).
Qed.

Lemma mkdir_OSError_dir (p : path) e w :
  stat (fs w) p = Ok Dir -> mkdir_OSError p true e w = (w, Ok tt).
Proof.
  intros Hstat. unfold mkdir_OSError, bind, path_is_dir, is_dir_in.
  rewrite Hstat. reflexivity.
Qed.

(** [Path.mkdir(parents=False, exist_ok=True)] succeeds below a directory when
    no file is in the way. *)
Lemma Path_mkdir_noparents_succeeds (p : path) c w :
  no_file_on (fs w) (p ++ [c]) ->
  stat (fs w) p = Ok Dir ->
  exists w', Path_mkdir_noparents (p ++ [c]) true w = (w', Ok tt).
Proof.
  intros Hno Hparent. unfold Path_mkdir_noparents, try_except.
  rewrite os_mkdir_snoc, Hparent.
  destruct (fs w !! (p ++ [c])) as [n |] eqn:Hself; [| eauto].
  cbn [is_OSError]. rewrite mkdir_OSError_dir; [eauto |].
  assert (Hstat : stat (fs w) (p ++ [c]) = Ok n)
    by (rewrite stat_snoc, Hparent, Hself; reflexivity).
  rewrite Hstat. f_equal. exact (stat_no_file _ _ _ Hno Hstat).
Qed.

(** [Path.mkdir(parents=True, exist_ok=True)] succeeds when no file is in the
    way. *)
Lemma mkdir_rev_succeeds : forall (rp : path) w,
  no_file_on (fs w) (rev rp) ->
  exists w', mkdir_rev rp true true w = (w', Ok tt).
Proof.
  induction rp as [| c rparent IH]; intros w Hno; cbn [mkdir_rev]; unfold try_except.
  - cbn [rev]. rewrite os_mkdir_root. cbn [is_OSError].
    rewrite mkdir_OSError_dir; [eauto | reflexivity].
  - cbn [rev] in *. pose proof (no_file_on_prefix _ _ _ Hno) as Hnoparent.
    rewrite os_mkdir_snoc.
    destruct (stat (fs w) (rev rparent)) as [n | e] eqn:Hparent.
    + assert (n = Dir) as -> by (eapply stat_no_file; eassumption).
      destruct (fs w !! (rev rparent ++ [c])) as [m |] eqn:Hself; [| eauto].
      cbn [is_OSError]. rewrite mkdir_OSError_dir; [eauto |].
      assert (Hstat : stat (fs w) (rev rparent ++ [c]) = Ok m)
        by (rewrite stat_snoc, Hparent, Hself; reflexivity).
      rewrite Hstat. f_equal. exact (stat_no_file _ _ _ Hno Hstat).
    + rewrite (stat_no_file_Raise _ _ _ Hnoparent Hparent).
      unfold bind. destruct (IH w Hnoparent) as [w2 Hmk]. rewrite Hmk.
      apply mkdir_rev_Ok in Hmk as (_ & Hadd & Hstat).
      apply Path_mkdir_noparents_succeeds; [| exact Hstat].
      eapply no_file_on_weaken; eassumption.
Qed.

Lemma stat_prefix_dir f (p : path) : forall (r : path) n,
  r <> [] -> stat f (p ++ r) = Ok n -> stat f p = Ok Dir.
Proof.
  induction r as [| c r IH] using rev_ind; intros n Hr; [congruence |].
  rewrite app_assoc, stat_snoc.
  destruct (stat f (p ++ r)) as [[| ?] | ?] eqn:Hstat; try discriminate.
  intros _. destruct (decide (r = [])) as [-> | Hne].
  - rewrite app_nil_r in Hstat. exact Hstat.
  - eapply IH; [exact Hne | reflexivity].
Qed.

(** The body of the loop of [create_directory_structure]. *)
Local Abbreviation mkdir_body :=
  (fun dir_path : string =>
     let full_path := joinpath repo_root dir_path in
     let* there := path_exists full_path in
     if there then print ("✅ " +:+ dir_path +:+ " already exists")
     else Path_mkdir full_path true true ;; print ("✨ Created " +:+ dir_path)).

Lemma exists_in_weaken f f' (p : path) :
  f ⊆ f' -> exists_in f p = true -> exists_in f' p = true.
Proof.
  intros Hsub. unfold exists_in. destruct (stat f p) as [n |] eqn:Hstat; [| discriminate].
  rewrite (stat_weaken _ _ _ _ Hsub Hstat). reflexivity.
Qed.

Lemma mkdir_body_Ok d w w1 :
  mkdir_body d w = (w1, Ok tt) ->
  only_dirs_added (fs w) (fs w1) /\ exists_in (fs w1) (joinpath repo_root d) = true.
Proof.
  cbv zeta. unfold bind, path_exists.
  destruct (exists_in (fs w) (joinpath repo_root d)) eqn:Hthere.
  - intros [= <-]. cbn [fs]. split; [apply only_dirs_added_refl | exact Hthere].
  - unfold Path_mkdir.
    destruct (mkdir_rev (rev (joinpath repo_root d)) true true w) as [w2 [[] | e]] eqn:Hmk;
      [| discriminate].
    intros [= <-]. cbn [fs]. apply mkdir_rev_Ok in Hmk as (_ & Hadd & Hstat).
    rewrite rev_involutive in Hstat. split; [exact Hadd |].
    unfold exists_in. rewrite Hstat. reflexivity.
Qed.

Lemma mkdir_loop_Ok : forall dirs w w',
  for_each dirs mkdir_body w = (w', Ok tt) ->
  only_dirs_added (fs w) (fs w') /\
  forall d, In d dirs -> exists_in (fs w') (joinpath repo_root d) = true.
Proof.
  induction dirs as [| d dirs IH]; intros w w'; cbn [for_each].
  - intros [= <-]. split; [apply only_dirs_added_refl | intros d []].
  - unfold bind at 1.
    destruct (mkdir_body d w) as [w1 [[] | e]] eqn:Hbody; [| discriminate].
    apply mkdir_body_Ok in Hbody as [Hadd1 Hd].
    intros Hrest. apply IH in Hrest as [Hadd Hall].
    split; [eapply only_dirs_added_trans; eassumption |].
    intros d' [<- | Hin]; [| apply Hall, Hin].
    eapply exists_in_weaken; [apply Hadd | exact Hd].
Qed.

Lemma mkdir_loop_all_exist : forall dirs w,
  (forall d, In d dirs -> exists_in (fs w) (joinpath repo_root d) = true) ->
  for_each dirs mkdir_body w =
  (World (fs w) (stdout w ++ map (fun d => "✅ " +:+ d +:+ " already exists") dirs), Ok tt).
Proof.
  induction dirs as [| d dirs IH]; intros w Hall; cbn [for_each map].
  - rewrite app_nil_r. destruct w; reflexivity.
  - unfold bind at 1. cbv zeta. unfold bind at 1. unfold path_exists at 1.
    rewrite (Hall d (or_introl eq_refl)). cbn [print].
    rewrite IH; cbn [fs stdout].
    + rewrite <- app_assoc. reflexivity.
    + intros d' Hin. apply Hall. right. exact Hin.
Qed.

Lemma mkdir_loop_succeeds : forall dirs w,
  (forall d, In d dirs -> no_file_on (fs w) (joinpath repo_root d)) ->
  exists w', for_each dirs mkdir_body w = (w', Ok tt).
Proof.
  induction dirs as [| d dirs IH]; intros w Hno; cbn [for_each]; [eexists; reflexivity |].
  unfold bind at 1. cbv zeta. unfold bind at 1. unfold path_exists at 1.
  destruct (exists_in (fs w) (joinpath repo_root d)).
  - cbn [print]. apply IH. cbn [fs]. intros d' Hin. apply Hno. right. exact Hin.
  - unfold bind at 1. unfold Path_mkdir.
    destruct (mkdir_rev_succeeds (rev (joinpath repo_root d)) w) as [w2 Hmk].
    { rewrite rev_involutive. apply Hno. left. reflexivity. }
    rewrite Hmk. cbn [print]. apply IH. cbn [fs].
    apply mkdir_rev_Ok in Hmk as (_ & Hadd & _).
    intros d' Hin. eapply no_file_on_weaken; [exact Hadd |]. apply Hno. right. exact Hin.
Qed.

Lemma create_directory_structure_unfold w :
  create_directory_structure w =
  match for_each directories mkdir_body
          (World (fs w) (stdout w ++ ["📁 Creating directory structure..."])) with
  | (w1, Ok _) => (World (fs w1) (stdout w1 ++ [EmptyString]), Ok tt)
  | (w1, Raise e) => (w1, Raise e)
  end.
Proof. reflexivity. Qed.

(** C7: when no file stands where one of the directories or of their parents
    should be, [create_directory_structure] returns and every directory, with
    all its parents, is a directory afterwards; and whenever it has returned,
    nothing that was there has changed, every directory exists, and a second
    call returns as well, leaves the file system as it is and reports each
    directory as already existing. *)
Theorem create_directory_structure_idempotent (w : world) :
  ((forall d, In d directories -> no_file_on (fs w) (joinpath repo_root d)) ->
   exists w',
     create_directory_structure w = (w', Ok tt) /\
     forall d (q r : path),
       In d directories -> joinpath repo_root d = q ++ r -> is_dir_in (fs w') q = true) /\
  (forall w',
     create_directory_structure w = (w', Ok tt) ->
     only_dirs_added (fs w) (fs w') /\
     (forall d, In d directories -> exists_in (fs w') (joinpath repo_root d) = true) /\
     create_directory_structure w' =
       (World (fs w')
          (stdout w' ++ "📁 Creating directory structure..."
             :: map (fun d => "✅ " +:+ d +:+ " already exists") directories
             ++ [EmptyString]),
        Ok tt)).
Proof.
  assert (Hpost : forall w',
    create_directory_structure w = (w', Ok tt) ->
    only_dirs_added (fs w) (fs w') /\
    forall d, In d directories -> exists_in (fs w') (joinpath repo_root d) = true).
  { intros w'. rewrite create_directory_structure_unfold.
    destruct (for_each directories mkdir_body _) as [w1 [[] | e]] eqn:Hloop;
      [| discriminate].
    intros [= <-]. cbn [fs]. apply mkdir_loop_Ok in Hloop. exact Hloop. }
  split.
  - intros Hno.
    destruct (mkdir_loop_succeeds directories
                (World (fs w) (stdout w ++ ["📁 Creating directory structure..."])) Hno)
      as [w1 Hloop].
    eexists. split; [rewrite create_directory_structure_unfold, Hloop; reflexivity |].
    intros d q r Hin Heq.
    assert (Hrun : create_directory_structure w =
                   (World (fs w1) (stdout w1 ++ [EmptyString]), Ok tt))
      by (rewrite create_directory_structure_unfold, Hloop; reflexivity).
    apply Hpost in Hrun as [Hadd Hall]. cbn [fs] in *.
    specialize (Hall d Hin). unfold exists_in in Hall.
    destruct (stat (fs w1) (joinpath repo_root d)) as [n |] eqn:Hstat; [| discriminate].
    assert (n = Dir) as ->.
    { eapply stat_no_file; [| exact Hstat].
      eapply no_file_on_weaken; [exact Hadd | apply Hno, Hin]. }
    unfold is_dir_in. destruct (decide (r = [])) as [-> | Hr].
    + rewrite app_nil_r in Heq. subst q. rewrite Hstat. reflexivity.
    + rewrite Heq in Hstat. rewrite (stat_prefix_dir _ _ _ _ Hr Hstat). reflexivity.
  - intros w' Hrun. destruct (Hpost w' Hrun) as [Hadd Hall].
    split; [exact Hadd |]. split; [exact Hall |].
    rewrite create_directory_structure_unfold, mkdir_loop_all_exist by exact Hall.
    cbn [fs stdout]. rewrite <- !app_assoc. reflexivity.
Qed.

(** ** What the validators accept and what makes them raise *)

(** What [validate_mcp_config] raises is a [TypeError]. *)
Lemma validate_mcp_config_TypeError data e :
  validate_mcp_config data = Raise e -> exists msg, e = TypeError msg.
Proof.
  unfold validate_mcp_config, contains, getitem, dict_has.
  destruct data as [| b | n | x | s | items | entries]; cbn [result_bind type_name];
    try (intros [= <-]; eauto).
  - destruct (str_contains "mcpServers" s); cbn [negb result_bind];
      [intros [= <-]; eauto | discriminate].
  - destruct (existsb (fun v => eq_str v "mcpServers") items); cbn [negb result_bind];
      [intros [= <-]; eauto | discriminate].
  - destruct (dict_get "mcpServers" entries) as [servers |]; cbn [negb result_bind];
      [destruct servers |]; discriminate.
Qed.

(** What [validate_claude_settings] raises is an [AttributeError] or a
    [TypeError]. *)
Lemma validate_claude_settings_raised data e :
  validate_claude_settings data = Raise e ->
  exists msg, e = TypeError msg \/ e = AttributeError msg.
Proof.
  unfold validate_claude_settings, keys, contains, getitem, dict_has.
  destruct data as [| b | n | x | s | items | entries]; cbn [result_bind type_name];
    try (intros [= <-]; eauto).
  destruct (dict_get "model" entries) as [model |]; cbn [result_bind].
  - destruct model; cbn [set_contains result_bind]; try (intros [= <-]; eauto);
      destruct (negb _); cbn [result_bind];
      destruct (dict_get "statusLine" entries); cbn [result_bind]; discriminate.
  - destruct (dict_get "statusLine" entries); cbn [result_bind]; discriminate.
Qed.

(** X1: [validate_mcp_config] raises exactly when the document is a number, a
    boolean or null, a list that holds the string "mcpServers", or a string
    that contains it, and what it raises is a [TypeError].  For an object it
    always returns. *)
Theorem validate_mcp_config_raises (data : value) :
  ((exists e, validate_mcp_config data = Raise e) <->
   match data with
   | PyDict _ => False
   | PyList items => existsb (fun v => eq_str v "mcpServers") items = true
   | PyStr s => str_contains "mcpServers" s = true
   | _ => True
   end) /\
  forall e, validate_mcp_config data = Raise e -> exists msg, e = TypeError msg.
Proof.
  split; [| apply validate_mcp_config_TypeError].
  unfold validate_mcp_config, contains, getitem, dict_has.
  destruct data as [| b | n | x | s | items | entries]; cbn [result_bind type_name];
    try (split; eauto; fail).
  - destruct (str_contains "mcpServers" s); cbn [negb result_bind];
      (split; [intros [e H]; try discriminate; reflexivity
              | intros H; try discriminate; eauto]).
  - destruct (existsb (fun v => eq_str v "mcpServers") items); cbn [negb result_bind];
      (split; [intros [e H]; try discriminate; reflexivity
              | intros H; try discriminate; eauto]).
  - destruct (dict_get "mcpServers" entries) as [servers |]; cbn [negb result_bind];
      [destruct servers |]; (split; [intros [e H]; discriminate | intros []]).
Qed.

Lemma flat_map_nil {A B : Type} (f : A -> list B) (l : list A) :
  flat_map f l = [] <-> forall x, In x l -> f x = [].
Proof.
  induction l as [| a l IH]; cbn [flat_map In].
  - split; [intros _ x [] | reflexivity].
  - split.
    + intros H x [-> | Hx]; apply app_eq_nil in H as [Ha Hl]; [exact Ha |].
      apply IH; assumption.
    + intros H. rewrite (H a) by (left; reflexivity). cbn [app].
      apply IH. intros x Hx. apply H. right. exact Hx.
Qed.

Lemma placeholder_issues_nil server_name cfg field what :
  placeholder_issues server_name cfg field what = [] <-> placeholders_free cfg field = true.
Proof.
  unfold placeholder_issues, placeholders_free.
  destruct (dict_get field cfg) as [[| | | | | | items] |]; try (split; reflexivity).
  rewrite flat_map_nil, forallb_forall. split; intros H [key v] Hin; specialize (H _ Hin);
    cbn [snd] in *; destruct (is_placeholder v); try reflexivity; discriminate.
Qed.

Lemma validate_server_nil server_name config :
  validate_server server_name config = [] <-> server_ok config = true.
Proof.
  unfold validate_server, server_ok.
  destruct config as [| | | | | | cfg]; try (split; discriminate).
  rewrite !andb_true_iff.
  split.
  - intros H. apply app_eq_nil in H as [Hty H]. apply app_eq_nil in H as [Hspec H].
    apply app_eq_nil in H as [Henv Hhdr].
    apply placeholder_issues_nil in Henv, Hhdr.
    split; [split |]; try assumption.
    unfold get_eq, get_in, list_contains, valid_types in *.
    destruct (dict_get "type" cfg) as [ty |]; [| discriminate].
    destruct ty as [| | | | t | |]; try discriminate. cbn [eq_str existsb] in *.
    destruct (String.eqb t "stdio"); cbn [orb andb negb] in *.
    + destruct (dict_has "command" cfg); [reflexivity | discriminate].
    + destruct (String.eqb t "sse" || (String.eqb t "http" || false)); [| discriminate].
      cbn [negb] in *. destruct (dict_has "url" cfg); [reflexivity | discriminate].
  - intros [[Hspec Henv] Hhdr].
    apply (placeholder_issues_nil server_name _ _ "env var") in Henv.
    apply (placeholder_issues_nil server_name _ _ "header") in Hhdr.
    rewrite Henv, Hhdr, !app_nil_r.
    unfold get_eq, get_in, list_contains, valid_types in *.
    destruct (dict_get "type" cfg) as [ty |]; [| discriminate].
    destruct ty as [| | | | t | |]; try discriminate. cbn [eq_str existsb] in *.
    destruct (String.eqb t "stdio") eqn:Estdio; cbn [orb andb negb] in *.
    + apply String.eqb_eq in Estdio. subst t.
      destruct (dict_has "command" cfg); [reflexivity | discriminate].
    + destruct (String.eqb t "sse" || (String.eqb t "http" || false)); [| discriminate].
      destruct (dict_has "url" cfg); [reflexivity | discriminate].
Qed.

(** X2: for an object, [validate_mcp_config] returns no issue exactly when
    "mcpServers" holds an object each of whose servers is an object of type
    stdio with a command, or of type sse or http with a url, and without a
    placeholder value in env and headers. *)
Theorem validate_mcp_config_no_issue (entries : list (string * value)) :
  validate_mcp_config (PyDict entries) = Ok [] <->
  exists servers,
    dict_get "mcpServers" entries = Some (PyDict servers) /\
    forallb (fun kv => server_ok (snd kv)) servers = true.
Proof.
  unfold validate_mcp_config, contains, getitem, dict_has.
  cbn [result_bind app].
  destruct (dict_get "mcpServers" entries) as [servers |]; cbn [negb result_bind].
  - destruct servers as [| | | | | | items];
      try (split; [discriminate | intros (? & ? & _); discriminate]).
    split.
    + intros [= H]. exists items. split; [reflexivity |].
      apply forallb_forall. intros kv Hin. apply (validate_server_nil (fst kv)).
      exact (proj1 (flat_map_nil _ _) H kv Hin).
    + intros (s & [= <-] & H). f_equal. apply flat_map_nil. intros kv Hin.
      apply validate_server_nil. exact (proj1 (forallb_forall _ _) H kv Hin).
  - split; [discriminate | intros (? & ? & _); discriminate].
Qed.

(** X3: a placeholder value of a server is always reported.  When a server
    that is an object has, in the object under "env" or "headers", a string
    whose lowered text contains "get-this-from" or "your_",
    [validate_mcp_config] returns issues among which is the message that names
    the server, the key and the value as written. *)
Theorem validate_mcp_config_reports_placeholder
    (entries servers cfg items : list (string * value))
    (server_name field what key s : string) :
  dict_get "mcpServers" entries = Some (PyDict servers) ->
  In (server_name, PyDict cfg) servers ->
  field = "env" /\ what = "env var" \/ field = "headers" /\ what = "header" ->
  dict_get field cfg = Some (PyDict items) ->
  In (key, PyStr s) items ->
  str_contains "get-this-from" (str_lower s) = true \/
  str_contains "your_" (str_lower s) = true ->
  exists issues,
    validate_mcp_config (PyDict entries) = Ok issues /\
    In ("Server '" +:+ server_name +:+ "' has placeholder value for " +:+ what
          +:+ " '" +:+ key +:+ "': " +:+ s) issues.
Proof.
  intros Hservers Hserver Hfield Hitems Hkey Hplace.
  unfold validate_mcp_config, contains, getitem, dict_has.
  cbn [result_bind app]. rewrite Hservers. cbn [negb result_bind].
  eexists. split; [reflexivity |].
  apply in_flat_map. exists (server_name, PyDict cfg). split; [exact Hserver |].
  cbn [fst snd validate_server].
  assert (Hin : In ("Server '" +:+ server_name +:+ "' has placeholder value for " +:+ what
                      +:+ " '" +:+ key +:+ "': " +:+ s)
                   (placeholder_issues server_name cfg field what)).
  { unfold placeholder_issues. rewrite Hitems. apply in_flat_map.
    exists (key, PyStr s). split; [exact Hkey |].
    assert (is_placeholder (PyStr s) = true) as ->.
    { cbn [is_placeholder]. apply orb_true_iff. exact Hplace. }
    left. reflexivity. }
  destruct Hfield as [[-> ->] | [-> ->]]; rewrite !in_app_iff; auto.
Qed.

(** X4: [validate_claude_settings] raises in two cases only: [AttributeError]
    when the document is not an object, and [TypeError] when it is one whose
    "model" is a list or an object. *)
Theorem validate_claude_settings_raises (data : value) :
  match data with
  | PyDict entries =>
      match dict_get "model" entries with
      | Some model =>
          if hashable model
          then exists issues, validate_claude_settings data = Ok issues
          else validate_claude_settings data =
               Raise (TypeError ("unhashable type: '" +:+ type_name model +:+ "'"))
      | None => exists issues, validate_claude_settings data = Ok issues
      end
  | _ =>
      validate_claude_settings data =
      Raise (AttributeError ("'" +:+ type_name data +:+ "' object has no attribute 'keys'"))
  end.
Proof.
  destruct data as [| | | | | | entries]; try reflexivity.
  unfold validate_claude_settings, keys, contains, getitem, dict_has.
  cbn [result_bind].
  destruct (dict_get "model" entries) as [model |]; cbn [result_bind].
  - destruct model; cbn [hashable set_contains result_bind]; try reflexivity;
      destruct (negb _); cbn [result_bind];
      destruct (dict_get "statusLine" entries); cbn [result_bind]; eauto.
  - destruct (dict_get "statusLine" entries); cbn [result_bind]; eauto.
Qed.

Lemma filter_unknown_nil (ks : list string) :
  List.filter (fun k => negb (str_in k valid_keys)) ks = [] <->
  forallb (fun k => str_in k valid_keys) ks = true.
Proof.
  induction ks as [| k ks IH]; cbn [List.filter forallb]; [split; reflexivity |].
  destruct (str_in k valid_keys); cbn [negb andb]; [exact IH | split; discriminate].
Qed.

(** X5: for an object, [validate_claude_settings] returns no issue exactly
    when every key is a known one, the model, if given, is one of the known
    names, and the statusLine, if it is an object, has a type and, when the
    type is command, a command.  A statusLine that is not an object is
    accepted. *)
Theorem validate_claude_settings_no_issue (entries : list (string * value)) :
  validate_claude_settings (PyDict entries) = Ok [] <-> settings_ok entries = true.
Proof.
  unfold validate_claude_settings, settings_ok, keys, contains, getitem.
  cbn [result_bind]. rewrite !andb_true_iff, <- filter_unknown_nil.
  unfold statusLine_issues, get_eq, dict_has.
  destruct (List.filter (fun k => negb (str_in k valid_keys)) (map fst entries))
    as [| u us];
    destruct (dict_get "model" entries) as [[| b | n | x | s | l | d] |];
    destruct (dict_get "statusLine" entries) as [[| | | | | | sc] |];
    cbn [result_bind set_contains app eq_str existsb valid_models];
    try destruct (existsb _ valid_models);
    try destruct (String.eqb s _ || _);
    try destruct (dict_get "type" sc) as [ty |];
    try destruct (eq_str ty "command");
    try destruct (dict_get "command" sc);
    cbn [result_bind app negb andb orb];
    intuition congruence.
Qed.

(** ** Programs that only read *)

Lemma read_only_ret {A : Type} (a : A) : read_only (ret a).
Proof. intros w. split; [reflexivity |]. exists []. symmetry. apply app_nil_r. Qed.

Lemma read_only_raise {A : Type} (e : exn) : read_only (@raise A e).
Proof. intros w. split; [reflexivity |]. exists []. symmetry. apply app_nil_r. Qed.

Lemma read_only_lift {A : Type} (r : result A) : read_only (lift r).
Proof. intros w. split; [reflexivity |]. exists []. symmetry. apply app_nil_r. Qed.

Lemma read_only_print (line : string) : read_only (print line).
Proof. intros w. split; [reflexivity |]. exists [line]. reflexivity. Qed.

Lemma read_only_path_exists (p : path) : read_only (path_exists p).
Proof. intros w. split; [reflexivity |]. exists []. symmetry. apply app_nil_r. Qed.

Lemma read_only_open_read (p : path) : read_only (open_read p).
Proof. intros w. split; [reflexivity |]. exists []. symmetry. apply app_nil_r. Qed.

Lemma read_only_bind {A B : Type} (m : M A) (k : A -> M B) :
  read_only m -> (forall a, read_only (k a)) -> read_only (bind m k).
Proof.
  intros Hm Hk w. unfold bind. destruct (Hm w) as [Hfs [out Hout]].
  destruct (m w) as [w1 [a | e]]; cbn [fst] in *.
  - destruct (Hk a w1) as [Hfs' [out' Hout']]. split; [congruence |].
    exists (out ++ out'). rewrite Hout', Hout. symmetry. apply app_assoc.
  - split; [assumption | eauto].
Qed.

Lemma read_only_try_except {A : Type} (body : M A) (handler : exn -> M A) :
  read_only body -> (forall e, read_only (handler e)) -> read_only (try_except body handler).
Proof.
  intros Hm Hk w. unfold try_except. destruct (Hm w) as [Hfs [out Hout]].
  destruct (body w) as [w1 [a | e]]; cbn [fst] in *.
  - split; [assumption | eauto].
  - destruct (Hk e w1) as [Hfs' [out' Hout']]. split; [congruence |].
    exists (out ++ out'). rewrite Hout', Hout. symmetry. apply app_assoc.
Qed.

Lemma read_only_for_each {A : Type} (xs : list A) (body : A -> M unit) :
  (forall x, read_only (body x)) -> read_only (for_each xs body).
Proof.
  intros Hbody. induction xs as [| x xs IH]; cbn [for_each].
  - apply read_only_ret.
  - apply read_only_bind; [apply Hbody | intros _; exact IH].
Qed.

Ltac read_only_step :=
  lazymatch goal with
  | |- read_only (bind _ _) => apply read_only_bind; [| intros ?]
  | |- read_only (try_except _ _) => apply read_only_try_except; [| intros ?]
  | |- read_only (for_each _ _) => apply read_only_for_each; intros ?
  | |- read_only (print _) => apply read_only_print
  | |- read_only (ret _) => apply read_only_ret
  | |- read_only (raise _) => apply read_only_raise
  | |- read_only (lift _) => apply read_only_lift
  | |- read_only (path_exists _) => apply read_only_path_exists
  | |- read_only (open_read _) => apply read_only_open_read
  | |- read_only (if ?c then _ else _) => destruct c
  | |- read_only (match ?x with _ => _ end) => destruct x
  end.

Lemma read_only_validate_json_file (p : path) : read_only (validate_json_file p).
Proof.
  intros w. rewrite validate_json_file_unfold.
  destruct (load_json (fs w) p) as [data | []]; cbn [fst];
    (split; [reflexivity |]; exists []; symmetry; apply app_nil_r).
Qed.

Lemma read_only_main : read_only main.
Proof.
  unfold main. cbv zeta.
  repeat first [apply read_only_validate_json_file | read_only_step].
Qed.

(** X6: [main] of validate-config.py changes no file and no directory,
    whatever the file system holds and however it ends; it only adds lines to
    the standard output. *)
Theorem main_changes_no_file (w : world) :
  fs (fst (main w)) = fs w /\ exists out, stdout (fst (main w)) = stdout w ++ out.
Proof. apply read_only_main. Qed.


(** ** What the decoder raises *)

Lemma scanstring_loop_decoder_error doc begin n : forall s pos chunks,
  String.length s <= n ->
  raises_decoder_error doc (scanstring_loop doc begin s pos chunks).
Proof.
  induction n as [| n IH]; intros s pos chunks Hlen.
  - destruct s; [exact eq_refl | simpl in Hlen; lia].
  - destruct s as [| c rest]; [exact eq_refl |].
    simpl. repeat case_match; subst; try exact eq_refl; try exact I;
      apply IH; simpl in Hlen |- *; lia.
Qed.

Lemma scanstring_decoder_error doc s pos : raises_decoder_error doc (scanstring doc s pos).
Proof. apply (scanstring_loop_decoder_error _ _ (String.length s)). lia. Qed.

Lemma expecting_value_decoder_error {A : Type} doc (r : result A) :
  raises_decoder_error doc r -> raises_decoder_error doc (expecting_value doc r).
Proof. destruct r as [a | []]; simpl; auto. Qed.

Lemma scan_decoder_error doc fuel : forall depth s pos,
  raises_decoder_error doc (scan_once doc fuel depth s pos) /\
  (forall values, raises_decoder_error doc (array_loop doc fuel depth s pos values)) /\
  (forall pairs, raises_decoder_error doc (object_loop doc fuel depth s pos pairs)).
Proof.
  induction fuel as [| fuel IH]; intros depth s pos.
  - repeat split.
  - split; [| split].
    + simpl. destruct s as [| nextchar rest]; [exact I |].
      pose proof (scanstring_decoder_error doc rest (S pos)) as Hstr.
      unfold JSONObject, JSONArray.
      repeat case_match; subst; simpl in *; try exact eq_refl; try exact I;
        try assumption; apply IH.
    + intros values. simpl.
      pose proof (expecting_value_decoder_error doc _ (proj1 (IH depth s pos))) as Hv.
      repeat case_match; subst; simpl in *; try exact eq_refl; try exact I;
        try assumption; apply IH.
    + intros pairs. simpl.
      pose proof (scanstring_decoder_error doc s pos) as Hstr.
      destruct (scanstring doc s pos) as [[[key s1] end1] | e]; [| exact Hstr].
      destruct (skip_ws s1 end1) as [s2 end2].
      destruct s2 as [| colon s3]; [exact eq_refl |].
      destruct (Ascii.eqb colon ":"); [| exact eq_refl].
      destruct (skip_ws s3 (S end2)) as [s4 end4].
      pose proof (expecting_value_decoder_error doc _ (proj1 (IH depth s4 end4))) as Hv.
      repeat case_match; subst; simpl in *; try exact eq_refl; try exact I;
        try assumption; apply IH.
Qed.

Lemma expecting_value_no_StopIteration {A : Type} doc (r : result A) n :
  expecting_value doc r <> Raise (StopIteration n).
Proof. destruct r as [a | []]; simpl; discriminate. Qed.

(** What [json.loads] raises. *)
Lemma json_loads_decoder_error (s : string) (e : exn) :
  json_loads s = Raise e ->
  (exists msg pos, e = JSONDecodeError msg s pos) \/ e = RecursionError.
Proof.
  unfold json_loads, decode.
  destruct (String.prefix BOM s); [intros [= <-]; eauto |].
  destruct (skip_ws s 0) as [s0 idx].
  pose proof (expecting_value_decoder_error s _
    (proj1 (scan_decoder_error s (2 * String.length s + 2) recursion_limit s0 idx))) as Hv.
  pose proof (expecting_value_no_StopIteration s
    (scan_once s (2 * String.length s + 2) recursion_limit s0 idx)) as Hstop.
  destruct (expecting_value s _) as [[[obj s1] end1] | e'].
  - destruct (skip_ws s1 end1) as [[| c s2] end2]; [discriminate | intros [= <-]; eauto].
  - intros [= <-]. destruct e'; cbn [raises_decoder_error] in Hv;
      try contradiction; subst; eauto.
    exfalso. eapply Hstop. reflexivity.
Qed.


(** X9: [validate_json_file] reports "File not found" exactly when [os.stat]
    of the path raises [FileNotFoundError], that is when the file or a
    directory on the way to it is missing. *)
Theorem validate_json_file_not_found (file_path : path) (w : world) :
  validate_json_file file_path w =
  (w, Ok (PyDict [("valid", PyBool false); ("error", PyStr "File not found")])) <->
  stat (fs w) file_path = Raise FileNotFoundError.
Proof.
  rewrite validate_json_file_unfold. unfold load_json, read_text.
  destruct (stat (fs w) file_path) as [[| [text | |]] | e] eqn:Hstat; cbn [result_bind].
  - split; [intros [= H]; discriminate | discriminate].
  - destruct (json_loads text) as [data | e] eqn:Hloads.
    + split; discriminate.
    + destruct (json_loads_decoder_error _ _ Hloads) as [(msg & pos & ->) | ->];
        (split; [intros [= H]; discriminate | discriminate]).
  - split; [intros [= H]; discriminate | discriminate].
  - split; [intros [= H]; discriminate | discriminate].
  - pose proof (stat_walk_Exception (fs w) file_path []) as Hexc.
    fold (stat (fs w) file_path) in Hexc. rewrite Hstat in Hexc.
    destruct e; try discriminate Hexc;
      try (split; [intros [= H]; discriminate | discriminate]).
    split; reflexivity.
    all: split; [intros [= H]; discriminate | discriminate].
Qed.

(** ** Composition of programs *)

Lemma keeps_weaken {A : Type} (R R' : gmap path node -> gmap path node -> Prop) (m : M A) :
  (forall f f', R f f' -> R' f f') -> keeps R m -> keeps R' m.
Proof. intros HR Hm w. destruct (Hm w) as [H Hout]. split; [apply HR, H | exact Hout]. Qed.

Lemma keeps_bind {A B : Type} (R : gmap path node -> gmap path node -> Prop)
    (m : M A) (k : A -> M B) :
  (forall f1 f2 f3, R f1 f2 -> R f2 f3 -> R f1 f3) ->
  keeps R m -> (forall a, keeps R (k a)) -> keeps R (bind m k).
Proof.
  intros HR Hm Hk w. unfold bind. destruct (Hm w) as [Hfs [out Hout]].
  destruct (m w) as [w1 [a | e]]; cbn [fst] in *.
  - destruct (Hk a w1) as [Hfs' [out' Hout']]. split; [eapply HR; eassumption |].
    exists (out ++ out'). rewrite Hout', Hout. symmetry. apply app_assoc.
  - split; [assumption | eauto].
Qed.

Lemma keeps_try_except {A : Type} (R : gmap path node -> gmap path node -> Prop)
    (body : M A) (handler : exn -> M A) :
  (forall f1 f2 f3, R f1 f2 -> R f2 f3 -> R f1 f3) ->
  keeps R body -> (forall e, keeps R (handler e)) -> keeps R (try_except body handler).
Proof.
  intros HR Hm Hk w. unfold try_except. destruct (Hm w) as [Hfs [out Hout]].
  destruct (body w) as [w1 [a | e]]; cbn [fst] in *.
  - split; [assumption | eauto].
  - destruct (Hk e w1) as [Hfs' [out' Hout']]. split; [eapply HR; eassumption |].
    exists (out ++ out'). rewrite Hout', Hout. symmetry. apply app_assoc.
Qed.

Lemma keeps_for_each {A : Type} (R : gmap path node -> gmap path node -> Prop)
    (xs : list A) (body : A -> M unit) :
  (forall f, R f f) -> (forall f1 f2 f3, R f1 f2 -> R f2 f3 -> R f1 f3) ->
  (forall x, keeps R (body x)) -> keeps R (for_each xs body).
Proof.
  intros Hrefl HR Hbody. induction xs as [| x xs IH]; cbn [for_each].
  - intros w. split; [apply Hrefl |]. exists []. symmetry. apply app_nil_r.
  - apply keeps_bind; [exact HR | apply Hbody | intros _; exact IH].
Qed.

Lemma keeps_of_read_only {A : Type} (R : gmap path node -> gmap path node -> Prop) (m : M A) :
  (forall f, R f f) -> read_only m -> keeps R m.
Proof. intros Hrefl Hm w. destruct (Hm w) as [-> Hout]. split; [apply Hrefl | exact Hout]. Qed.

Lemma raises_only_weaken {A : Type} (P Q : exn -> bool) (m : M A) :
  (forall e, P e = true -> Q e = true) -> raises_only P m -> raises_only Q m.
Proof. intros HPQ Hm w e He. apply HPQ, (Hm w e He). Qed.

Lemma raises_only_ret {A : Type} P (a : A) : raises_only P (ret a).
Proof. intros w e. discriminate. Qed.

Lemma raises_only_print P (line : string) : raises_only P (print line).
Proof. intros w e. discriminate. Qed.

Lemma raises_only_path_exists P (p : path) : raises_only P (path_exists p).
Proof. intros w e. discriminate. Qed.

Lemma raises_only_raise {A : Type} (P : exn -> bool) (e : exn) :
  P e = true -> raises_only P (@raise A e).
Proof. intros He w e' [= <-]. exact He. Qed.

Lemma raises_only_bind {A B : Type} P (m : M A) (k : A -> M B) :
  raises_only P m -> (forall a, raises_only P (k a)) -> raises_only P (bind m k).
Proof.
  intros Hm Hk w e. unfold bind. specialize (Hm w).
  destruct (m w) as [w1 [a | e1]]; cbn [snd] in *.
  - apply Hk.
  - intros [= <-]. apply Hm. reflexivity.
Qed.

Lemma raises_only_try_except {A : Type} P Q (body : M A) (handler : exn -> M A) :
  raises_only Q body -> (forall e, Q e = true -> raises_only P (handler e)) ->
  raises_only P (try_except body handler).
Proof.
  intros Hm Hk w e. unfold try_except. specialize (Hm w).
  destruct (body w) as [w1 [a | e1]]; cbn [snd] in *; [discriminate |].
  apply Hk, Hm. reflexivity.
Qed.

Lemma raises_only_for_each {A : Type} P (xs : list A) (body : A -> M unit) :
  (forall x, raises_only P (body x)) -> raises_only P (for_each xs body).
Proof.
  intros Hbody. induction xs as [| x xs IH]; cbn [for_each].
  - apply raises_only_ret.
  - apply raises_only_bind; [apply Hbody | intros _; exact IH].
Qed.

(** A program that raises nothing returns. *)
Lemma raises_nothing_returns {A : Type} (m : M A) :
  raises_only (fun _ => false) m -> forall w, exists a, snd (m w) = Ok a.
Proof.
  intros Hm w. specialize (Hm w). destruct (snd (m w)) as [a | e]; [eauto |].
  discriminate (Hm e eq_refl).
Qed.

(** ** [create_directory_structure], whatever its outcome *)

Lemma stat_walk_OSError f : forall (rest cur : path) e,
  stat_walk f cur rest = Raise e -> is_OSError e = true.
Proof.
  induction rest as [| c rest IH]; intros cur e; cbn [stat_walk].
  - destruct (node_at f cur); [discriminate | intros [= <-]; reflexivity].
  - destruct (node_at f cur) as [[| ?] |]; [apply IH | |]; intros [= <-]; reflexivity.
Qed.

Lemma stat_OSError f (p : path) e : stat f p = Raise e -> is_OSError e = true.
Proof. apply stat_walk_OSError. Qed.

Lemma is_OSError_Exception e : is_OSError e = true -> is_Exception e = true.
Proof. destruct e; try reflexivity; discriminate. Qed.

Lemma read_only_path_is_dir (p : path) : read_only (path_is_dir p).
Proof. intros w. split; [reflexivity |]. exists []. symmetry. apply app_nil_r. Qed.

Lemma keeps_os_mkdir (p : path) : keeps only_dirs_added (os_mkdir p).
Proof.
  intros w. destruct (os_mkdir p w) as [w' [[] | e]] eqn:Hmk; cbn [fst].
  - destruct p as [| c p _] using rev_ind; [discriminate |].
    apply os_mkdir_Ok in Hmk as (Hout & Hadd & _).
    split; [exact Hadd |]. exists []. rewrite app_nil_r. exact Hout.
  - apply os_mkdir_Raise in Hmk as ->.
    split; [apply only_dirs_added_refl |]. exists []. symmetry. apply app_nil_r.
Qed.

Lemma raises_only_os_mkdir (p : path) : raises_only is_OSError (os_mkdir p).
Proof.
  intros w e. unfold os_mkdir. destruct p as [| c p]; [intros [= <-]; reflexivity |].
  destruct (stat (fs w) (removelast (c :: p))) as [[| ?] | e'] eqn:Hstat; cbn [snd].
  - destruct (fs w !! (c :: p)); cbn [snd]; [intros [= <-]; reflexivity | discriminate].
  - intros [= <-]. reflexivity.
  - intros [= <-]. exact (stat_OSError _ _ _ Hstat).
Qed.

Lemma read_only_mkdir_OSError (p : path) exist_ok e : read_only (mkdir_OSError p exist_ok e).
Proof.
  unfold mkdir_OSError. apply read_only_bind; [apply read_only_path_is_dir |].
  intros d. destruct (negb exist_ok || negb d); [apply read_only_raise | apply read_only_ret].
Qed.

Lemma raises_only_mkdir_OSError P (p : path) exist_ok e :
  P e = true -> raises_only P (mkdir_OSError p exist_ok e).
Proof.
  intros He w e'. unfold mkdir_OSError, bind, path_is_dir.
  destruct (negb exist_ok || negb (is_dir_in (fs w) p)); [| discriminate].
  intros [= <-]. exact He.
Qed.

Lemma keeps_Path_mkdir_noparents (p : path) exist_ok :
  keeps only_dirs_added (Path_mkdir_noparents p exist_ok).
Proof.
  unfold Path_mkdir_noparents.
  apply keeps_try_except; [apply only_dirs_added_trans | apply keeps_os_mkdir |].
  intros e. apply keeps_of_read_only; [apply only_dirs_added_refl |].
  destruct e; cbn [is_OSError];
    first [apply read_only_raise | apply read_only_mkdir_OSError].
Qed.

Lemma raises_only_Path_mkdir_noparents (p : path) exist_ok :
  raises_only is_OSError (Path_mkdir_noparents p exist_ok).
Proof.
  unfold Path_mkdir_noparents.
  apply (raises_only_try_except _ is_OSError); [apply raises_only_os_mkdir |].
  intros e He. destruct e; try discriminate He; cbn [is_OSError];
    first [apply raises_only_raise; reflexivity
          | apply raises_only_mkdir_OSError; reflexivity].
Qed.

Lemma keeps_mkdir_rev : forall (rp : path) parents exist_ok,
  keeps only_dirs_added (mkdir_rev rp parents exist_ok).
Proof.
  induction rp as [| c rparent IH]; intros parents exist_ok; cbn [mkdir_rev];
    (apply keeps_try_except; [apply only_dirs_added_trans | apply keeps_os_mkdir |]);
    intros e.
  - apply keeps_of_read_only; [apply only_dirs_added_refl |].
    destruct e; cbn [is_OSError];
      first [apply read_only_raise | apply read_only_mkdir_OSError].
  - destruct e; cbn [is_OSError];
      try (apply keeps_of_read_only; [apply only_dirs_added_refl |];
           first [apply read_only_raise | apply read_only_mkdir_OSError]).
    destruct parents.
    + apply keeps_bind; [apply only_dirs_added_trans | apply IH |].
      intros _. apply keeps_Path_mkdir_noparents.
    + apply keeps_of_read_only; [apply only_dirs_added_refl | apply read_only_raise].
Qed.

Lemma raises_only_mkdir_rev : forall (rp : path) parents exist_ok,
  raises_only is_OSError (mkdir_rev rp parents exist_ok).
Proof.
  induction rp as [| c rparent IH]; intros parents exist_ok; cbn [mkdir_rev];
    (apply (raises_only_try_except _ is_OSError); [apply raises_only_os_mkdir |]);
    intros e He.
  - destruct e; try discriminate He; cbn [is_OSError];
      first [apply raises_only_raise; reflexivity
            | apply raises_only_mkdir_OSError; reflexivity].
  - destruct e; try discriminate He; cbn [is_OSError];
      try (first [apply raises_only_raise; reflexivity
                 | apply raises_only_mkdir_OSError; reflexivity]).
    destruct parents; [| apply raises_only_raise; reflexivity].
    apply raises_only_bind; [apply IH |].
    intros _. apply raises_only_Path_mkdir_noparents.
Qed.

Lemma keeps_create_directory_structure : keeps only_dirs_added create_directory_structure.
Proof.
  unfold create_directory_structure.
  assert (Hprint : forall line, keeps only_dirs_added (print line)).
  { intros line. apply keeps_of_read_only;
      [apply only_dirs_added_refl | apply read_only_print]. }
  apply keeps_bind; [apply only_dirs_added_trans | apply Hprint |]. intros _.
  apply keeps_bind; [apply only_dirs_added_trans | | intros _; apply Hprint].
  apply keeps_for_each; [apply only_dirs_added_refl | apply only_dirs_added_trans |].
  intros dir_path. cbv zeta.
  apply keeps_bind; [apply only_dirs_added_trans | |].
  { apply keeps_of_read_only; [apply only_dirs_added_refl | apply read_only_path_exists]. }
  intros [|]; [apply Hprint |].
  apply keeps_bind; [apply only_dirs_added_trans | apply keeps_mkdir_rev |].
  intros _. apply Hprint.
Qed.

Lemma raises_only_create_directory_structure :
  raises_only is_OSError create_directory_structure.
Proof.
  unfold create_directory_structure.
  apply raises_only_bind; [apply raises_only_print |]. intros _.
  apply raises_only_bind; [| intros _; apply raises_only_print].
  apply raises_only_for_each. intros dir_path. cbv zeta.
  apply raises_only_bind; [apply raises_only_path_exists |].
  intros [|]; [apply raises_only_print |].
  apply raises_only_bind; [apply raises_only_mkdir_rev |].
  intros _. apply raises_only_print.
Qed.

(** X10: however [create_directory_structure] ends, also when it fails half
    way, every entry that was in the file system is still there unchanged,
    what has been added are directories only, and the standard output has
    only been added to; and what it raises is an [OSError]. *)
Theorem create_directory_structure_only_adds_directories (w : world) :
  only_dirs_added (fs w) (fs (fst (create_directory_structure w))) /\
  (exists out, stdout (fst (create_directory_structure w)) = stdout w ++ out) /\
  forall e, snd (create_directory_structure w) = Raise e -> is_OSError e = true.
Proof.
  destruct (keeps_create_directory_structure w) as [Hadd Hout].
  split; [exact Hadd |]. split; [exact Hout |].
  apply raises_only_create_directory_structure.
Qed.

(** X11: a regular file named [.claude] makes [create_directory_structure]
    fail at the first directory: it raises [NotADirectoryError], having
    printed its heading only and changed nothing. *)
Theorem create_directory_structure_file_in_the_way (w : world) (c : content) :
  fs w !! joinpath repo_root ".claude" = Some (File c) ->
  create_directory_structure w =
  (World (fs w) (stdout w ++ ["📁 Creating directory structure..."]),
   Raise NotADirectoryError).
Proof.
  intros Hfile. rewrite create_directory_structure_unfold.
  change (joinpath repo_root ".claude") with [".claude"] in Hfile.
  assert (Hstat : forall p : path,
            p <> [] -> stat (fs w) (".claude" :: p) = Raise NotADirectoryError).
  { intros [| x p] Hp; [congruence |]. unfold stat. cbn [stat_walk node_at app].
    rewrite Hfile. reflexivity. }
  unfold directories. cbn [for_each]. unfold bind at 1. cbv zeta.
  unfold bind at 1, path_exists at 1, exists_in. cbn [fs].
  change (joinpath repo_root ".claude/hooks/logs") with [".claude"; "hooks"; "logs"].
  rewrite Hstat by discriminate.
  unfold bind at 1, Path_mkdir. cbn [rev app mkdir_rev]. unfold try_except at 1.
  unfold os_mkdir at 1. cbn [removelast fs]. rewrite Hstat by discriminate.
  cbn [is_OSError]. unfold mkdir_OSError, bind at 1, path_is_dir, is_dir_in. cbn [fs].
  rewrite Hstat by discriminate. reflexivity.
Qed.

(** ** [setup_environment_file] *)

Lemma exists_in_top_None f (name : string) :
  exists_in f [name] = false -> f !! [name] = None.
Proof.
  unfold exists_in, stat. cbn [stat_walk node_at app].
  destruct (f !! [name]); [discriminate | reflexivity].
Qed.

Lemma exists_in_top_Some f (name : string) :
  exists_in f [name] = true -> exists n, f !! [name] = Some n /\ stat f [name] = Ok n.
Proof.
  unfold exists_in, stat. cbn [stat_walk node_at app].
  destruct (f !! [name]) as [n |]; [eauto | discriminate].
Qed.

Ltac run_program :=
  cbv beta iota zeta delta [bind print path_exists input ret raise lift try_except
                            open_for_reading open_for_writing write_opened read_opened
                            fst snd fs stdout removelast].

(** What [setup_environment_file] does once the answer is yes: [n] is what
    stands at [.env.example]. *)
Lemma setup_environment_file_accepted (line : string) (w : world) (n : node) :
  exists_in (fs w) (joinpath repo_root ".env") = false ->
  fs w !! joinpath repo_root ".env.example" = Some n ->
  str_in (str_lower (str_strip line)) ["y"; "yes"] = true ->
  snd (setup_environment_file (InputLine line) w) = Ok tt /\
  fs (fst (setup_environment_file (InputLine line) w)) =
  match n with
  | File (Text s) => <[joinpath repo_root ".env" := File (Text s)]> (fs w)
  | File Undecodable => <[joinpath repo_root ".env" := File (Text EmptyString)]> (fs w)
  | _ => fs w
  end.
Proof.
  change (joinpath repo_root ".env") with [".env"].
  change (joinpath repo_root ".env.example") with [".env.example"].
  destruct w as [f out]. cbn [fs]. intros Henv Hexample Hyes.
  assert (Hthere : exists_in f [".env.example"] = true).
  { unfold exists_in, stat. cbn [stat_walk node_at app]. rewrite Hexample. reflexivity. }
  assert (Hstat : stat f [".env.example"] = Ok n).
  { unfold stat. cbn [stat_walk node_at app]. rewrite Hexample. reflexivity. }
  pose proof (exists_in_top_None _ _ Henv) as Hnone.
  unfold setup_environment_file.
  change (joinpath repo_root ".env") with [".env"].
  change (joinpath repo_root ".env.example") with [".env.example"].
  run_program. rewrite Henv, Hthere. run_program. cbn [negb]. run_program.
  rewrite Hyes. run_program. rewrite Hstat.
  destruct n as [| [s | |]]; run_program; cbn [is_Exception]; run_program.
  - split; reflexivity.
  - change (stat f []) with (@Ok node Dir). run_program. rewrite Hnone.
    run_program. split; [reflexivity |]. apply insert_insert_eq.
  - change (stat f []) with (@Ok node Dir). run_program. rewrite Hnone.
    run_program. cbn [is_Exception]. run_program. split; reflexivity.
  - split; reflexivity.
Qed.

(** [setup_environment_file] returns; it leaves the file system as it is, or
    has been told to create [.env], which was missing, and has created it. *)
Lemma setup_environment_file_outcome (answer : input_outcome) (w : world) :
  snd (setup_environment_file answer w) = Ok tt /\
  (fs (fst (setup_environment_file answer w)) = fs w \/
   exists_in (fs w) (joinpath repo_root ".env") = false /\
   exists_in (fs w) (joinpath repo_root ".env.example") = true /\
   (exists line, answer = InputLine line /\
                 str_in (str_lower (str_strip line)) ["y"; "yes"] = true) /\
   exists s, fs (fst (setup_environment_file answer w)) =
             <[joinpath repo_root ".env" := File (Text s)]> (fs w)).
Proof.
  assert (Hno : str_in "n" ["y"; "yes"] = false) by reflexivity.
  destruct (exists_in (fs w) (joinpath repo_root ".env")) eqn:Henv.
  { split; [| left]; destruct w as [f out]; cbn [fs] in *;
      unfold setup_environment_file; run_program; rewrite Henv; reflexivity. }
  destruct (exists_in (fs w) (joinpath repo_root ".env.example")) eqn:Hexample.
  2: { split; [| left]; destruct w as [f out]; cbn [fs] in *;
         unfold setup_environment_file; run_program; rewrite Henv; run_program;
         rewrite Hexample; reflexivity. }
  destruct answer as [line | |].
  2, 3: split; [| left]; destruct w as [f out]; cbn [fs] in *;
    unfold setup_environment_file; run_program; rewrite Henv; run_program;
    rewrite Hexample; cbn [negb]; run_program; rewrite Hno; reflexivity.
  destruct (str_in (str_lower (str_strip line)) ["y"; "yes"]) eqn:Hyes.
  2: { split; [| left]; destruct w as [f out]; cbn [fs] in *;
         unfold setup_environment_file; run_program; rewrite Henv; run_program;
         rewrite Hexample; cbn [negb]; run_program; rewrite Hyes; reflexivity. }
  change (joinpath repo_root ".env.example") with [".env.example"] in Hexample.
  destruct (exists_in_top_Some _ _ Hexample) as (n & Hn & _).
  destruct (setup_environment_file_accepted line w n Henv Hn Hyes) as [Hret Hfs].
  split; [exact Hret |]. rewrite Hfs.
  destruct n as [| [s | |]]; [left; reflexivity | right | right | left; reflexivity];
    (split; [reflexivity |]; split; [reflexivity |]; split; eauto).
Qed.

Lemma only_dirs_and_env_added_refl f : only_dirs_and_env_added f f.
Proof. split; [reflexivity | auto]. Qed.

Lemma only_dirs_and_env_added_trans f1 f2 f3 :
  only_dirs_and_env_added f1 f2 -> only_dirs_and_env_added f2 f3 ->
  only_dirs_and_env_added f1 f3.
Proof.
  intros [Hsub1 H1] [Hsub2 H2]. split; [etransitivity; eassumption |].
  intros q n Hq. destruct (H2 q n Hq) as [H | H]; [| auto].
  apply H1, H.
Qed.

Lemma only_dirs_added_and_env f f' : only_dirs_added f f' -> only_dirs_and_env_added f f'.
Proof.
  intros [Hsub H]. split; [exact Hsub |].
  intros q n Hq. destruct (H q n Hq); auto.
Qed.

Lemma stdout_extended_bind {A B : Type} (m : M A) (k : A -> M B) :
  keeps (fun _ _ => True) m -> (forall a, keeps (fun _ _ => True) (k a)) ->
  keeps (fun _ _ => True) (bind m k).
Proof. apply keeps_bind. auto. Qed.

Lemma stdout_extended_primitive {A : Type} (m : M A) :
  (forall w, stdout (fst (m w)) = stdout w) -> keeps (fun _ _ => True) m.
Proof. intros H w. split; [exact I |]. exists []. rewrite app_nil_r. apply H. Qed.

Lemma stdout_extended_setup_environment_file (answer : input_outcome) :
  keeps (fun _ _ => True) (setup_environment_file answer).
Proof.
  assert (Hro : forall A (m : M A), read_only m -> keeps (fun _ _ => True) m).
  { intros A m. apply keeps_of_read_only. auto. }
  assert (Hprint : forall line, keeps (fun _ _ => True) (print line)).
  { intros line. apply Hro, read_only_print. }
  unfold setup_environment_file. cbv zeta.
  apply stdout_extended_bind; [apply Hprint | intros _].
  apply stdout_extended_bind; [apply Hro, read_only_path_exists | intros [|]];
    [apply Hprint |].
  apply stdout_extended_bind; [apply Hro, read_only_path_exists | intros [|]];
    cbn [negb]; [| apply Hprint].
  apply stdout_extended_bind; [apply Hprint | intros _].
  apply stdout_extended_bind.
  { intros w. split; [exact I |]. eexists. reflexivity. }
  intros got. apply stdout_extended_bind.
  { destruct got; [apply Hro, read_only_ret | |];
      (apply stdout_extended_bind; [apply Hprint | intros _; apply Hro, read_only_ret]). }
  intros response. apply stdout_extended_bind; [| intros _; apply Hprint].
  destruct (str_in response ["y"; "yes"]); [| apply Hprint].
  apply keeps_try_except; [auto | |].
  - apply stdout_extended_bind.
    { apply stdout_extended_primitive. intros w. unfold open_for_reading.
      destruct (stat (fs w) _) as [[| [| |]] |]; reflexivity. }
    intros src. apply stdout_extended_bind.
    { apply stdout_extended_primitive. intros w. unfold open_for_writing.
      destruct (joinpath repo_root ".env"); [reflexivity |].
      destruct (stat (fs w) _) as [[| ?] |]; try reflexivity.
      destruct (fs w !! _) as [[| [| |]] |]; reflexivity. }
    intros _. apply stdout_extended_bind; [apply Hro, read_only_lift | intros text].
    apply stdout_extended_bind;
      [apply stdout_extended_primitive; reflexivity | intros _].
    apply stdout_extended_bind; [apply Hprint | intros _; apply Hprint].
  - intros e. destruct (is_Exception e); [apply Hprint | apply Hro, read_only_raise].
Qed.

Lemma keeps_setup_environment_file (answer : input_outcome) :
  keeps only_dirs_and_env_added (setup_environment_file answer).
Proof.
  intros w. split; [| apply stdout_extended_setup_environment_file].
  destruct (setup_environment_file_outcome answer w)
    as [_ [-> | (Henv & _ & _ & s & ->)]]; [apply only_dirs_and_env_added_refl |].
  change (joinpath repo_root ".env") with [".env"] in *.
  apply exists_in_top_None in Henv. split.
  - apply insert_subseteq, Henv.
  - intros q n. destruct (decide (q = [".env"])) as [-> | Hne]; [auto |].
    rewrite lookup_insert_ne by congruence. auto.
Qed.


(** X13: when [.env] is missing, [.env.example] is a file of text and the
    answer is yes, [setup_environment_file] creates [.env] with the text of
    [.env.example] and touches nothing else: reading [.env] afterwards gives
    that text. *)
Theorem setup_environment_file_copies (line : string) (w : world) (s : string) :
  exists_in (fs w) (joinpath repo_root ".env") = false ->
  fs w !! joinpath repo_root ".env.example" = Some (File (Text s)) ->
  str_in (str_lower (str_strip line)) ["y"; "yes"] = true ->
  fs (fst (setup_environment_file (InputLine line) w)) =
    <[joinpath repo_root ".env" := File (Text s)]> (fs w) /\
  read_text (fs (fst (setup_environment_file (InputLine line) w)))
    (joinpath repo_root ".env") = Ok s.
Proof.
  intros Henv Hexample Hyes.
  destruct (setup_environment_file_accepted line w _ Henv Hexample Hyes) as [_ Hfs].
  rewrite Hfs. split; [reflexivity |].
  change (joinpath repo_root ".env") with [".env"].
  unfold read_text, stat. cbn [stat_walk node_at app].
  rewrite lookup_insert_eq. reflexivity.
Qed.

(** X14: when [.env.example] cannot be decoded, a yes leaves an empty [.env]
    behind: the file is opened for writing before the text is read.  The
    function still returns, and the next run finds that [.env] exists. *)
Theorem setup_environment_file_leaves_empty_env (line : string) (w : world) :
  exists_in (fs w) (joinpath repo_root ".env") = false ->
  fs w !! joinpath repo_root ".env.example" = Some (File Undecodable) ->
  str_in (str_lower (str_strip line)) ["y"; "yes"] = true ->
  snd (setup_environment_file (InputLine line) w) = Ok tt /\
  fs (fst (setup_environment_file (InputLine line) w)) =
    <[joinpath repo_root ".env" := File (Text EmptyString)]> (fs w) /\
  exists_in (fs (fst (setup_environment_file (InputLine line) w)))
    (joinpath repo_root ".env") = true.
Proof.
  intros Henv Hexample Hyes.
  destruct (setup_environment_file_accepted line w _ Henv Hexample Hyes) as [Hret Hfs].
  rewrite Hfs. split; [exact Hret |]. split; [reflexivity |].
  change (joinpath repo_root ".env") with [".env"].
  unfold exists_in, stat. cbn [stat_walk node_at app].
  rewrite lookup_insert_eq. reflexivity.
Qed.

(** ** [set_permissions] *)

Lemma read_only_os_chmod chmod_allowed (p : path) : read_only (os_chmod chmod_allowed p).
Proof.
  intros w. unfold os_chmod. destruct (chmod_allowed p);
    (split; [reflexivity |]; exists []; symmetry; apply app_nil_r).
Qed.

Lemma raises_only_os_chmod chmod_allowed (p : path) :
  raises_only is_Exception (os_chmod chmod_allowed p).
Proof.
  intros w e. unfold os_chmod. destruct (chmod_allowed p); [discriminate |].
  intros [= <-]. reflexivity.
Qed.

Lemma read_only_set_permissions chmod_allowed : read_only (set_permissions chmod_allowed).
Proof.
  unfold set_permissions. cbv zeta.
  repeat first [apply read_only_os_chmod | read_only_step].
Qed.

Lemma raises_only_set_permissions P chmod_allowed :
  raises_only P (set_permissions chmod_allowed).
Proof.
  unfold set_permissions. cbv zeta.
  apply raises_only_bind; [apply raises_only_print | intros _].
  apply raises_only_bind; [| intros _; apply raises_only_print].
  apply raises_only_for_each. intros script_path.
  apply raises_only_bind; [apply raises_only_path_exists |].
  intros [|]; [| apply raises_only_print].
  apply (raises_only_try_except _ is_Exception).
  - apply raises_only_bind; [apply raises_only_os_chmod |].
    intros _. apply raises_only_print.
  - intros e ->. apply raises_only_print.
Qed.


(** ** [validate_configuration] and [main] of setup.py *)

(** The result of [main] depends on the file system only. *)
Lemma main_result_fs (w w' : world) : fs w = fs w' -> snd (main w) = snd (main w').
Proof. intros H. rewrite !main_result, H. reflexivity. Qed.

Lemma main_never_returns (w : world) : exists e, snd (main w) = Raise e.
Proof.
  rewrite main_result. repeat case_match; eauto.
Qed.

Lemma read_only_exec_module (p : path) : read_only (exec_module p).
Proof. unfold exec_module. repeat read_only_step. Qed.

Lemma read_only_validate_configuration : read_only validate_configuration.
Proof.
  unfold validate_configuration.
  repeat first [apply read_only_main | apply read_only_exec_module | read_only_step].
Qed.

(** What [validate_configuration] returns. *)
Lemma validate_configuration_result (w : world) :
  snd (validate_configuration w) =
  Ok match read_text (fs w) (joinpath repo_root "validate-config.py"), snd (main w) with
     | Ok _, Raise (SystemExit code) => (code =? 0)%Z
     | _, _ => false
     end.
Proof.
  destruct w as [f out]. cbn [fs]. unfold validate_configuration.
  unfold bind at 1. unfold print at 1. cbn [fs stdout]. unfold bind at 1.
  unfold try_except. unfold bind at 1. unfold exec_module. unfold bind at 1.
  unfold open_read at 1. cbn [fs].
  destruct (read_text f (joinpath repo_root "validate-config.py")) as [source | e] eqn:Hread.
  - unfold ret at 1. unfold bind at 1.
    rewrite (main_result_fs (World f out)
               (World f (out ++ ["🔍 Running configuration validation..."])) eq_refl).
    destruct (main_never_returns (World f (out ++ ["🔍 Running configuration validation..."])))
      as [e He].
    destruct (main (World f (out ++ ["🔍 Running configuration validation..."])))
      as [w2 r]. cbn [snd] in *. subst r.
    destruct e; try reflexivity.
    destruct (code =? 0)%Z; reflexivity.
  - pose proof (read_text_Exception f (joinpath repo_root "validate-config.py")) as Hexc.
    rewrite Hread in Hexc. cbn [raises_Exception] in Hexc.
    destruct e; try discriminate Hexc; reflexivity.
Qed.


Lemma raises_only_validate_configuration P : raises_only P validate_configuration.
Proof.
  intros w e. rewrite validate_configuration_result. discriminate.
Qed.

Lemma raises_only_print_next_steps P repo_abs : raises_only P (print_next_steps repo_abs).
Proof.
  unfold print_next_steps.
  repeat (apply raises_only_bind; [apply raises_only_print | intros _]).
  apply raises_only_print.
Qed.

Lemma read_only_print_next_steps repo_abs : read_only (print_next_steps repo_abs).
Proof. unfold print_next_steps. repeat read_only_step. Qed.

Lemma raises_only_setup_environment_file P answer :
  raises_only P (setup_environment_file answer).
Proof.
  intros w e. rewrite (proj1 (setup_environment_file_outcome answer w)). discriminate.
Qed.

(** The part of [main] of setup.py after [create_directory_structure]. *)
Local Abbreviation after_directories answer chmod_allowed repo_abs :=
  (setup_environment_file answer ;;
   set_permissions chmod_allowed ;;
   let* passed := validate_configuration in
   if passed then print_next_steps repo_abs
   else
     print EmptyString ;;
     print "⚠️  Setup completed but with configuration issues." ;;
     print "   Please review the validation output above and fix any issues.").

Lemma raises_only_after_directories P answer chmod_allowed repo_abs :
  raises_only P (after_directories answer chmod_allowed repo_abs).
Proof.
  apply raises_only_bind; [apply raises_only_setup_environment_file | intros _].
  apply raises_only_bind; [apply raises_only_set_permissions | intros _].
  apply raises_only_bind; [apply raises_only_validate_configuration | intros [|]].
  - apply raises_only_print_next_steps.
  - repeat (apply raises_only_bind; [apply raises_only_print | intros _]).
    apply raises_only_print.
Qed.

Lemma keeps_after_directories answer chmod_allowed repo_abs :
  keeps only_dirs_and_env_added (after_directories answer chmod_allowed repo_abs).
Proof.
  assert (Hro : forall A (m : M A), read_only m -> keeps only_dirs_and_env_added m).
  { intros A m. apply keeps_of_read_only, only_dirs_and_env_added_refl. }
  apply keeps_bind;
    [apply only_dirs_and_env_added_trans | apply keeps_setup_environment_file | intros _].
  apply Hro.
  apply read_only_bind; [apply read_only_set_permissions | intros _].
  apply read_only_bind; [apply read_only_validate_configuration | intros [|]].
  - apply read_only_print_next_steps.
  - repeat read_only_step.
Qed.

(** What [main] of setup.py returns or raises, after what
    [create_directory_structure] does. *)
Lemma setup_main_result answer chmod_allowed repo_abs (w : world) :
  snd (setup_main answer chmod_allowed repo_abs w) =
  match snd (create_directory_structure
               (World (fs w)
                  (stdout w ++ ["🚀 Claude Settings Repository Setup";
                                "===================================";
                                EmptyString]))) with
  | Ok _ => Ok tt
  | Raise _ => Raise (SystemExit 1)
  end.
Proof.
  unfold setup_main. unfold bind at 1, print at 1. unfold bind at 1, print at 1.
  unfold bind at 1, print at 1. cbn [fs stdout]. rewrite <- !app_assoc. cbn [app].
  unfold try_except. unfold bind at 1.
  pose proof (raises_only_create_directory_structure
                (World (fs w)
                   (stdout w ++ ["🚀 Claude Settings Repository Setup";
                                 "===================================";
                                 EmptyString]))) as Hraise.
  destruct (create_directory_structure _) as [w1 [[] | e]]; cbn [snd] in *.
  - destruct (raises_nothing_returns _
                (raises_only_after_directories _ answer chmod_allowed repo_abs) w1)
      as [[] Hret].
    destruct (after_directories answer chmod_allowed repo_abs w1) as [w2 r].
    cbn [snd] in Hret. subst r. reflexivity.
  - rewrite (is_OSError_Exception _ (Hraise e eq_refl)). reflexivity.
Qed.

Lemma keeps_setup_main answer chmod_allowed repo_abs :
  keeps only_dirs_and_env_added (setup_main answer chmod_allowed repo_abs).
Proof.
  assert (Hro : forall A (m : M A), read_only m -> keeps only_dirs_and_env_added m).
  { intros A m. apply keeps_of_read_only, only_dirs_and_env_added_refl. }
  unfold setup_main.
  do 3 (apply keeps_bind;
          [apply only_dirs_and_env_added_trans | apply Hro, read_only_print | intros _]).
  apply keeps_try_except; [apply only_dirs_and_env_added_trans | |].
  - apply keeps_bind; [apply only_dirs_and_env_added_trans | |].
    + eapply keeps_weaken; [apply only_dirs_added_and_env |].
      apply keeps_create_directory_structure.
    + intros _. apply keeps_after_directories.
  - intros e. apply Hro. repeat read_only_step.
Qed.



(** X19: a regular file named [.claude] makes [main] of setup.py end with
    [sys.exit(1)], the file system left as it was. *)
Theorem setup_main_fails (answer : input_outcome) (chmod_allowed : path -> bool)
    (repo_abs : string) (w : world) (c : content) :
  fs w !! joinpath repo_root ".claude" = Some (File c) ->
  snd (setup_main answer chmod_allowed repo_abs w) = Raise (SystemExit 1) /\
  fs (fst (setup_main answer chmod_allowed repo_abs w)) = fs w.
Proof.
  intros Hfile. split.
  - rewrite setup_main_result, create_directory_structure_file_in_the_way with (c := c);
      [reflexivity | exact Hfile].
  - unfold setup_main. unfold bind at 1, print at 1. unfold bind at 1, print at 1.
    unfold bind at 1, print at 1. cbn [fs stdout].
    unfold try_except. unfold bind at 1.
    rewrite create_directory_structure_file_in_the_way with (c := c) by exact Hfile.
    cbn [is_Exception]. reflexivity.
Qed.

(** ** Running setup.py twice *)

(** [main] of setup.py step by step: the three lines of the heading, then
    [create_directory_structure], then the rest, which does not raise. *)
Lemma setup_main_run answer chmod_allowed repo_abs (w : world) :
  setup_main answer chmod_allowed repo_abs w =
  match create_directory_structure
          (World (fs w)
             (stdout w ++ ["🚀 Claude Settings Repository Setup";
                           "===================================";
                           EmptyString])) with
  | (w1, Ok _) => after_directories answer chmod_allowed repo_abs w1
  | (w1, Raise e) =>
      (World (fs w1)
         (stdout w1 ++ [String (ascii_of_nat 10) "❌ Setup failed with error: "
                          +:+ exn_str e]),
       Raise (SystemExit 1))
  end.
Proof.
  unfold setup_main. unfold bind at 1, print at 1. unfold bind at 1, print at 1.
  unfold bind at 1, print at 1. cbn [fs stdout]. rewrite <- !app_assoc. cbn [app].
  unfold try_except. unfold bind at 1.
  pose proof (raises_only_create_directory_structure
                (World (fs w)
                   (stdout w ++ ["🚀 Claude Settings Repository Setup";
                                 "===================================";
                                 EmptyString]))) as Hraise.
  destruct (create_directory_structure _) as [w1 [[] | e]]; cbn [snd] in *.
  - destruct (raises_nothing_returns _
                (raises_only_after_directories _ answer chmod_allowed repo_abs) w1)
      as [[] Hret].
    destruct (after_directories answer chmod_allowed repo_abs w1) as [w2 r].
    cbn [snd] in Hret. subst r. reflexivity.
  - rewrite (is_OSError_Exception _ (Hraise e eq_refl)). reflexivity.
Qed.

(** After [setup_environment_file] the rest of [main] changes no file. *)
Lemma after_directories_fs answer chmod_allowed repo_abs (w : world) :
  fs (fst (after_directories answer chmod_allowed repo_abs w)) =
  fs (fst (setup_environment_file answer w)).
Proof.
  unfold bind at 1.
  destruct (setup_environment_file answer w) as [w1 [[] | e]]; [| reflexivity].
  cbn [fst].
  match goal with
  | |- fs (fst (?rest w1)) = _ => assert (Hro : read_only rest)
  end.
  { apply read_only_bind; [apply read_only_set_permissions | intros _].
    apply read_only_bind; [apply read_only_validate_configuration | intros [|]].
    - apply read_only_print_next_steps.
    - repeat read_only_step. }
  apply Hro.
Qed.

Lemma setup_environment_file_env_there answer (w : world) :
  exists_in (fs w) (joinpath repo_root ".env") = true ->
  fs (fst (setup_environment_file answer w)) = fs w.
Proof.
  intros Henv.
  destruct (setup_environment_file_outcome answer w) as [_ [H | (H & _)]];
    [exact H | congruence].
Qed.

(** When every directory is there, [create_directory_structure] returns and
    changes no file. *)
Lemma create_directory_structure_all_exist (w : world) :
  (forall d, In d directories -> exists_in (fs w) (joinpath repo_root d) = true) ->
  exists w', create_directory_structure w = (w', Ok tt) /\ fs w' = fs w.
Proof.
  intros Hall. rewrite create_directory_structure_unfold.
  rewrite mkdir_loop_all_exist by exact Hall. eexists. split; reflexivity.
Qed.

(** What a [create_directory_structure] that returned has done. *)
Lemma create_directory_structure_Ok (w w' : world) :
  create_directory_structure w = (w', Ok tt) ->
  only_dirs_added (fs w) (fs w') /\
  forall d, In d directories -> exists_in (fs w') (joinpath repo_root d) = true.
Proof.
  rewrite create_directory_structure_unfold.
  destruct (for_each directories mkdir_body _) as [w1 [[] | e]] eqn:Hloop;
    [| discriminate].
  intros [= <-]. cbn [fs]. apply mkdir_loop_Ok in Hloop. exact Hloop.
Qed.


(** ** Redaction *)

Lemma redact_dict entries :
  redact (PyDict entries) = PyDict (map redact_entry entries).
Proof. reflexivity. Qed.

Lemma dict_get_redact key entries :
  dict_get key (map redact_entry entries) =
  match dict_get key entries with
  | Some x => Some (if is_sensitive key then PyStr REDACTED else redact x)
  | None => None
  end.
Proof.
  induction entries as [| [k x] entries IH]; simpl; [reflexivity |].
  destruct (String.eqb k key) eqn:E; [| exact IH].
  apply String.eqb_eq in E. subst k. reflexivity.
Qed.

Lemma value_at_app p q v :
  value_at (p ++ q) v =
  match value_at p v with
  | Some x => value_at q x
  | None => None
  end.
Proof.
  revert v. induction p as [| [k | i] p IH]; intros v; simpl; [reflexivity | |].
  - destruct v; try reflexivity. destruct (dict_get k entries); [apply IH | reflexivity].
  - destruct v; try reflexivity. destruct (nth_error items i); [apply IH | reflexivity].
Qed.

(** Along a path with no sensitive key, redaction commutes with selection. *)
Lemma value_at_redact p : forall V v,
  clear_path p = true ->
  value_at p V = Some v ->
  value_at p (redact V) = Some (redact v).
Proof.
  induction p as [| [k | i] p IH]; intros V v Hclear Hat; simpl in *.
  - congruence.
  - apply andb_prop in Hclear as [Hk Hp]. apply negb_true_iff in Hk.
    destruct V; try discriminate. rewrite redact_dict. simpl.
    rewrite dict_get_redact. destruct (dict_get k entries) as [x |]; [| discriminate].
    rewrite Hk. apply IH; assumption.
  - destruct V; try discriminate. simpl.
    rewrite nth_error_map. destruct (nth_error items i) as [x |]; [| discriminate].
    simpl. apply IH; assumption.
Qed.

Lemma redact_no_sensitive_key v :
  no_sensitive_key v = true -> redact v = v.
Proof.
  induction v as [| b | n | x | s | items IH | entries IH] using value_nested_ind;
    intros Hno; try reflexivity.
  - simpl in *. f_equal. induction IH as [| v items Hv _ IHitems]; [reflexivity |].
    simpl in Hno. apply andb_prop in Hno as [H1 H2].
    simpl. rewrite Hv, IHitems by assumption. reflexivity.
  - rewrite redact_dict. simpl in Hno. f_equal.
    induction IH as [| [k x] entries Hx _ IHentries]; [reflexivity |].
    simpl in *. apply andb_prop in Hno as [H1 H2]. apply andb_prop in H1 as [Hk Hx'].
    apply negb_true_iff in Hk. rewrite Hk, Hx, IHentries by assumption. reflexivity.
Qed.



(** C3: redacting twice is redacting once. *)
Theorem redact_idempotent (V : value) : redact (redact V) = redact V.
Proof.
  induction V as [| b | n | x | s | items IH | entries IH] using value_nested_ind;
    try reflexivity.
  - simpl. f_equal. rewrite map_map.
    induction IH as [| v items Hv _ IHitems]; [reflexivity |].
    simpl. rewrite Hv, IHitems. reflexivity.
  - rewrite !redact_dict. f_equal. rewrite map_map.
    induction IH as [| [k x] entries Hx _ IHentries]; [reflexivity |].
    simpl in *. rewrite IHentries. f_equal.
    destruct (is_sensitive k) eqn:E; simpl; rewrite ?E; [reflexivity |].
    rewrite Hx. reflexivity.
Qed.

End Python.

Arguments PyNone {pyfloat}.
Arguments PyBool {pyfloat} b.
Arguments PyInt {pyfloat} n.
Arguments PyFloat {pyfloat} x.
Arguments PyStr {pyfloat} s.
Arguments PyList {pyfloat} items.
Arguments PyDict {pyfloat} entries.
Arguments redact {pyfloat} v.
Arguments value_at {pyfloat} p v.
Arguments dict_get {pyfloat} key d.
Arguments dict_set {pyfloat} key v d.

(** * Examples

    The statements above at concrete inputs.  In the examples a float stands as
    its literal, [repr] and the messages of the interpreter are placeholders,
    a set is iterated in the order given and 1000 containers may be nested. *)

Local Abbreviation ex_repr := (fun _ : value string => "<repr>").
Local Abbreviation ex_message := (fun _ : exn => "<message>").
Local Abbreviation ex_validate_json_file :=
  (validate_json_file string (fun literal => literal) ex_repr 1000 ex_message).
Local Abbreviation ex_load_json :=
  (load_json string (fun literal => literal) ex_repr 1000).
Local Abbreviation ex_validate_mcp_config := (validate_mcp_config string ex_repr).
Local Abbreviation ex_validate_claude_settings :=
  (validate_claude_settings string ex_repr (fun l => l)).
Local Abbreviation ex_main :=
  (main string (fun literal => literal) ex_repr 1000 ex_message
     (fun x => negb (String.eqb x "0.0")) (fun l => l)).






(** C6 at a file system whose [.mcp.json] is empty. *)
Lemma empty_input_is_parse_failure_example :
  json_loads string (fun literal => literal) ex_repr 1000 EmptyString =
    Raise (JSONDecodeError "Expecting value" EmptyString 0) /\
  ex_validate_json_file [".mcp.json"]
    (World {[ [".mcp.json"] := File (Text EmptyString) ]} []) =
    (World {[ [".mcp.json"] := File (Text EmptyString) ]} [],
     Ok (PyDict [("valid", PyBool false);
                 ("error",
                  PyStr "JSON parse error: Expecting value: line 1 column 1 (char 0)")])).
Proof.
  apply (empty_input_is_parse_failure string (fun literal => literal) ex_repr 1000
           ex_message [".mcp.json"]
           (World {[ [".mcp.json"] := File (Text EmptyString) ]} [])).
  vm_compute. reflexivity.
Defined.

(** C7 at an empty repository. *)
Lemma create_directory_structure_example :
  exists w',
    create_directory_structure (World ∅ []) = (w', Ok tt) /\
    forall d (q r : path),
      In d directories -> joinpath repo_root d = q ++ r -> is_dir_in (fs w') q = true.
Proof.
  apply (proj1 (create_directory_structure_idempotent (World ∅ []))).
  intros d _ q r c _. cbn [fs]. rewrite lookup_empty. discriminate.
Defined.

(** C9 at [{"servers": {}}] and at [{"mcpServers": []}]. *)
Lemma validate_mcp_config_early_return_example :
  (exists issue,
     ex_validate_mcp_config (PyDict [("servers", PyDict [])]) = Ok [issue] /\
     (issue = "Missing 'mcpServers' key in root object" \/
      issue = "'mcpServers' must be an object")) /\
  (exists issue,
     ex_validate_mcp_config (PyDict [("mcpServers", PyList [])]) = Ok [issue] /\
     (issue = "Missing 'mcpServers' key in root object" \/
      issue = "'mcpServers' must be an object")).
Proof.
  split.
  - apply (validate_mcp_config_early_return string ex_repr [("servers", PyDict [])]).
    left. reflexivity.
  - apply (validate_mcp_config_early_return string ex_repr [("mcpServers", PyList [])]).
    right. exists (PyList []). split; reflexivity.
Defined.

Local Abbreviation ex_setup_main :=
  (setup_main string (fun literal => literal) ex_repr 1000 ex_message
     (fun x => negb (String.eqb x "0.0")) (fun l => l)).

(** X3 at a server "github" whose env holds the token "YOUR_TOKEN_HERE". *)
Lemma validate_mcp_config_reports_placeholder_example :
  exists issues,
    ex_validate_mcp_config
      (PyDict [("mcpServers",
                PyDict [("github",
                         PyDict [("type", PyStr "stdio"); ("command", PyStr "npx");
                                 ("env", PyDict [("GITHUB_TOKEN",
                                                  PyStr "YOUR_TOKEN_HERE")])])])]) =
    Ok issues /\
    In "Server 'github' has placeholder value for env var 'GITHUB_TOKEN': YOUR_TOKEN_HERE"
       issues.
Proof.
  apply (validate_mcp_config_reports_placeholder string ex_repr
           [("mcpServers",
             PyDict [("github",
                      PyDict [("type", PyStr "stdio"); ("command", PyStr "npx");
                              ("env", PyDict [("GITHUB_TOKEN",
                                               PyStr "YOUR_TOKEN_HERE")])])])]
           [("github",
             PyDict [("type", PyStr "stdio"); ("command", PyStr "npx");
                     ("env", PyDict [("GITHUB_TOKEN", PyStr "YOUR_TOKEN_HERE")])])]
           [("type", PyStr "stdio"); ("command", PyStr "npx");
            ("env", PyDict [("GITHUB_TOKEN", PyStr "YOUR_TOKEN_HERE")])]
           [("GITHUB_TOKEN", PyStr "YOUR_TOKEN_HERE")]
           "github" "env" "env var" "GITHUB_TOKEN" "YOUR_TOKEN_HERE").
  - reflexivity.
  - left. reflexivity.
  - left. split; reflexivity.
  - reflexivity.
  - left. reflexivity.
  - right. reflexivity.
Defined.


(** X11 at a repository that holds a file named [.claude] only. *)
Lemma create_directory_structure_file_in_the_way_example :
  create_directory_structure (World {[ [".claude"] := File (Text EmptyString) ]} []) =
  (World {[ [".claude"] := File (Text EmptyString) ]}
     ["📁 Creating directory structure..."],
   Raise NotADirectoryError).
Proof.
  assert (Hfile : fs (World {[ [".claude"] := File (Text EmptyString) ]} [])
                    !! joinpath repo_root ".claude" = Some (File (Text EmptyString)))
    by (vm_compute; reflexivity).
  exact (create_directory_structure_file_in_the_way
           (World {[ [".claude"] := File (Text EmptyString) ]} []) (Text EmptyString)
           Hfile).
Defined.

(** X13 at a repository that holds [.env.example] only, with the answer
    " Yes ". *)
Lemma setup_environment_file_copies_example :
  fs (fst (setup_environment_file ex_message (InputLine " Yes ")
             (World {[ [".env.example"] := File (Text "API_KEY=your_key") ]} []))) =
    <[ [".env"] := File (Text "API_KEY=your_key") ]>
      {[ [".env.example"] := File (Text "API_KEY=your_key") ]} /\
  read_text
    (fs (fst (setup_environment_file ex_message (InputLine " Yes ")
                (World {[ [".env.example"] := File (Text "API_KEY=your_key") ]} []))))
    [".env"] = Ok "API_KEY=your_key".
Proof.
  assert (Henv : exists_in
                   (fs (World {[ [".env.example"] := File (Text "API_KEY=your_key") ]} []))
                   (joinpath repo_root ".env") = false)
    by (vm_compute; reflexivity).
  assert (Hexample : fs (World {[ [".env.example"] := File (Text "API_KEY=your_key") ]} [])
                       !! joinpath repo_root ".env.example" =
                     Some (File (Text "API_KEY=your_key")))
    by (vm_compute; reflexivity).
  assert (Hyes : str_in (str_lower (str_strip " Yes ")) ["y"; "yes"] = true)
    by (vm_compute; reflexivity).
  exact (setup_environment_file_copies ex_message " Yes "
           (World {[ [".env.example"] := File (Text "API_KEY=your_key") ]} [])
           "API_KEY=your_key" Henv Hexample Hyes).
Defined.

(** X14 at a repository whose [.env.example] cannot be decoded, with the
    answer "y". *)
Lemma setup_environment_file_leaves_empty_env_example :
  snd (setup_environment_file ex_message (InputLine "y")
         (World {[ [".env.example"] := File Undecodable ]} [])) = Ok tt /\
  fs (fst (setup_environment_file ex_message (InputLine "y")
             (World {[ [".env.example"] := File Undecodable ]} []))) =
    <[ [".env"] := File (Text EmptyString) ]> {[ [".env.example"] := File Undecodable ]} /\
  exists_in
    (fs (fst (setup_environment_file ex_message (InputLine "y")
                (World {[ [".env.example"] := File Undecodable ]} []))))
    [".env"] = true.
Proof.
  assert (Henv : exists_in (fs (World {[ [".env.example"] := File Undecodable ]} []))
                   (joinpath repo_root ".env") = false)
    by (vm_compute; reflexivity).
  assert (Hexample : fs (World {[ [".env.example"] := File Undecodable ]} [])
                       !! joinpath repo_root ".env.example" = Some (File Undecodable))
    by (vm_compute; reflexivity).
  assert (Hyes : str_in (str_lower (str_strip "y")) ["y"; "yes"] = true)
    by (vm_compute; reflexivity).
  exact (setup_environment_file_leaves_empty_env ex_message "y"
           (World {[ [".env.example"] := File Undecodable ]} []) Henv Hexample Hyes).
Defined.


(** X19 at a repository that holds a file named [.claude] only. *)
Lemma setup_main_fails_example :
  snd (ex_setup_main (InputLine "y") (fun _ => true) "/repo"
         (World {[ [".claude"] := File (Text EmptyString) ]} [])) =
    Raise (SystemExit 1) /\
  fs (fst (ex_setup_main (InputLine "y") (fun _ => true) "/repo"
             (World {[ [".claude"] := File (Text EmptyString) ]} []))) =
    {[ [".claude"] := File (Text EmptyString) ]}.
Proof.
  assert (Hfile : fs (World {[ [".claude"] := File (Text EmptyString) ]} [])
                    !! joinpath repo_root ".claude" = Some (File (Text EmptyString)))
    by (vm_compute; reflexivity).
  exact (setup_main_fails string (fun literal => literal) ex_repr 1000 ex_message
           (fun x => negb (String.eqb x "0.0")) (fun l => l)
           (InputLine "y") (fun _ => true) "/repo"
           (World {[ [".claude"] := File (Text EmptyString) ]} []) (Text EmptyString)
           Hfile).
Defined.

